(** * pyenvisalink: the Envisalink TPI client (Honeywell instantiation)

    A shallow embedding of [pyenvisalink/envisalink_base_client.py] and
    [pyenvisalink/honeywell_client.py]: the command queue and its operation
    state machine, the inbound framer and dispatcher, and the response
    decoders, followed by the properties proved about them.

    Conventions.
    - A Python [str] and a Python [bytes] are both a [string]: a Rocq [ascii]
      is one 8-bit byte, and [decode('ascii')] / [encode('ascii')] fail on a
      byte above 127.
    - Python floats (times and delays, in seconds) are exact rationals [Q].
      The only arithmetic the code does on them is doubling, one addition and
      comparisons.
    - [time.time()] is an explicit argument [now].
    - A Python exception is a value of [PyExc]; a call that may raise returns
      a [Result]; a method that mutates [self] returns the new client too.
    - Logging is not modelled. *)

From Stdlib Require Import ZArith QArith Lia String Ascii List Bool.
From stdpp Require Import base option gmap strings list.

Local Open Scope string_scope.
Local Open Scope Z_scope.

(** ** Python values, exceptions and results *)

Inductive PyExc :=
| AttributeError | TypeError | KeyError | NameError | ValueError
| IndexError | UnicodeError | NotImplementedError.

Inductive Result (A : Type) :=
| Ok (a : A)
| Raise (e : PyExc).
Arguments Ok {A} a.
Arguments Raise {A} e.

Definition bindR {A B} (r : Result A) (k : A -> Result B) : Result B :=
  match r with
  | Ok a => k a
  | Raise e => Raise e
  end.

#[global] Instance Result_bind : MBind Result := fun A B k r => bindR r k.
#[global] Instance Result_ret : MRet Result := fun A a => Ok a.

(** A [d[k]] on a dict. *)
Definition subscript {K V} `{Countable K} (d : gmap K V) (k : K) : Result V :=
  match d !! k with
  | Some v => Ok v
  | None => Raise KeyError
  end.

(** The values the client stores and passes around.  [PDict] is a dict from
    [str] to [str], the shape of the [cmd] dict of [parseHandler]; [PTuple]
    is a 2-tuple. *)
Inductive PyVal :=
| PNone
| PBool (b : bool)
| PInt (z : Z)
| PStr (s : string)
| PDict (d : gmap string string)
| PTuple (a b : PyVal).

(** Truth value of an object, as [if x:] and [bool(x)] take it. *)
Definition py_bool (v : PyVal) : bool :=
  match v with
  | PNone => false
  | PBool b => b
  | PInt z => negb (z =? 0)
  | PStr s => negb (String.eqb s "")
  | PDict d => negb (bool_decide (d = ∅))
  | PTuple _ _ => true
  end.

(** [obj[key]]: a dict looks the key up; a tuple takes integers only, so a
    [str] key raises [TypeError]; [None], a number or a [str] subscripted by
    a [str] raise [TypeError] too. *)
Definition py_getitem (obj key : PyVal) : Result PyVal :=
  match obj, key with
  | PDict d, PStr k =>
      match d !! k with
      | Some v => Ok (PStr v)
      | None => Raise KeyError
      end
  | PDict _, _ => Raise KeyError
  | PTuple a b, PInt i =>
      if i =? 0 then Ok a else if i =? 1 then Ok b
      else if i =? -1 then Ok b else if i =? -2 then Ok a
      else Raise IndexError
  | PTuple a b, PBool i => if i then Ok b else Ok a
  | _, _ => Raise TypeError
  end.

(** ** Strings as Python uses them *)

Definition chr (n : nat) : ascii := ascii_of_nat n.
Definition CR : ascii := chr 13.
Definition LF : ascii := chr 10.
Definition CRLF : string := String CR (String LF "").

Fixpoint str_drop (n : nat) (s : string) : string :=
  match n, s with
  | O, _ => s
  | S n', String _ t => str_drop n' t
  | S _, EmptyString => EmptyString
  end.

Fixpoint str_take (n : nat) (s : string) : string :=
  match n, s with
  | O, _ => EmptyString
  | S n', String c t => String c (str_take n' t)
  | S _, EmptyString => EmptyString
  end.

(** [s[a:b]] for [0 <= a], [0 <= b]. *)
Definition slice (a b : nat) (s : string) : string :=
  str_take (b - a) (str_drop a s).

(** [s.find(c)] for a one-character [c]; [None] is Python's [-1]. *)
Fixpoint find (c : ascii) (s : string) : option nat :=
  match s with
  | EmptyString => None
  | String x t => if Ascii.eqb x c then Some O else S <$> find c t
  end.

(** [c in s] for a one-character [c]. *)
Definition contains (c : ascii) (s : string) : bool :=
  match find c s with Some _ => true | None => false end.

Fixpoint str_filter (p : ascii -> bool) (s : string) : string :=
  match s with
  | EmptyString => EmptyString
  | String x t => if p x then String x (str_filter p t) else str_filter p t
  end.

Fixpoint str_forall (p : ascii -> bool) (s : string) : bool :=
  match s with
  | EmptyString => true
  | String x t => p x && str_forall p t
  end.

(** The longest prefix whose characters all satisfy [p], and the rest. *)
Fixpoint span (p : ascii -> bool) (s : string) : string * string :=
  match s with
  | EmptyString => (EmptyString, EmptyString)
  | String x t =>
      if p x then let '(a, b) := span p t in (String x a, b)
      else (EmptyString, s)
  end.

(** Whitespace of [str.strip()] among the ASCII characters: TAB, LF, VT,
    FF, CR, FS, GS, RS, US and the space. *)
Definition is_py_space (c : ascii) : bool :=
  let n := nat_of_ascii c in
  ((9 <=? n)%nat && (n <=? 13)%nat) || ((28 <=? n)%nat && (n <=? 32)%nat).

Fixpoint lstrip (s : string) : string :=
  match s with
  | String x t => if is_py_space x then lstrip t else s
  | EmptyString => EmptyString
  end.

Definition rstrip (s : string) : string :=
  String.rev (lstrip (String.rev s)).

Definition strip (s : string) : string := rstrip (lstrip s).

(** [s.split(sep)] for the two-character separator CR LF.  [cur] is the
    piece being read, reversed. *)
Fixpoint split_crlf_go (cur : string) (s : string) : list string :=
  match s with
  | EmptyString => [String.rev cur]
  | String x t =>
      match t with
      | String y t' =>
          if Ascii.eqb x CR && Ascii.eqb y LF
          then String.rev cur :: split_crlf_go EmptyString t'
          else split_crlf_go (String x cur) t
      | EmptyString => [String.rev (String x cur)]
      end
  end.

Definition split_crlf (s : string) : list string :=
  split_crlf_go EmptyString s.

(** [s.split(c)] for a one-character separator. *)
Fixpoint split_char_go (c : ascii) (cur : string) (s : string) : list string :=
  match s with
  | EmptyString => [String.rev cur]
  | String x t =>
      if Ascii.eqb x c then String.rev cur :: split_char_go c EmptyString t
      else split_char_go c (String x cur) t
  end.

Definition split_char (c : ascii) (s : string) : list string :=
  split_char_go c EmptyString s.

(** [sep.join(l)]. *)
Fixpoint join (sep : string) (l : list string) : string :=
  match l with
  | [] => EmptyString
  | [x] => x
  | x :: t => x +:+ sep +:+ join sep t
  end.

(** [data.decode('ascii')] and [data.encode('ascii')]: [None] is the
    Unicode error. *)
Definition is_ascii (s : string) : bool :=
  str_forall (fun c => (nat_of_ascii c <? 128)%nat) s.

Definition decode_ascii (data : string) : option string :=
  if is_ascii data then Some data else None.

(** [re.findall('....', s)]: the successive non-overlapping runs of four
    characters none of which is a line feed ([.] matches any character but
    LF); after a failed attempt the search resumes one character further. *)
Fixpoint findall4 (s : string) : list string :=
  match s with
  | String a t =>
      match t with
      | String b (String c (String d rest)) =>
          if negb (Ascii.eqb a LF) && negb (Ascii.eqb b LF)
             && negb (Ascii.eqb c LF) && negb (Ascii.eqb d LF)
          then String a (String b (String c (String d ""))) :: findall4 rest
          else findall4 t
      | _ => []
      end
  | EmptyString => []
  end.

(** Value of a character as a digit of [int()]: [0-9], then letters of
    either case from ten on. *)
Definition digit_value (c : ascii) : option Z :=
  let n := Z.of_nat (nat_of_ascii c) in
  if (48 <=? n) && (n <=? 57) then Some (n - 48)
  else if (97 <=? n) && (n <=? 122) then Some (n - 87)
  else if (65 <=? n) && (n <=? 90) then Some (n - 55)
  else None.

Definition is_underscore (c : ascii) : bool := Ascii.eqb c "_".

(** The digits of an [int()] literal: digits below [base] with single
    underscores between them.  [prev] is the character read before, [None]
    at the start.  Returns the value and what follows the digits. *)
Fixpoint int_digits (base : Z) (prev : option ascii) (acc : Z) (s : string)
  : option (Z * string) :=
  let finish :=
    match prev with
    | None => None
    | Some p => if is_underscore p then None else Some (acc, s)
    end in
  match s with
  | EmptyString => finish
  | String c t =>
      if is_underscore c then
        match prev with
        | None => None
        | Some p => if is_underscore p then None
                    else int_digits base (Some c) acc t
        end
      else
        match digit_value c with
        | Some d => if d <? base then int_digits base (Some c) (acc * base + d) t
                    else finish
        | None => finish
        end
  end.

(** Whitespace of [int()] on an ASCII string: TAB, LF, VT, FF, CR and the
    space; FS, GS, RS and US, which [str.strip()] removes, are no
    whitespace here. *)
Definition is_int_space (c : ascii) : bool :=
  let n := nat_of_ascii c in
  ((9 <=? n)%nat && (n <=? 13)%nat) || (n =? 32)%nat.

Fixpoint int_lstrip (s : string) : string :=
  match s with
  | String x t => if is_int_space x then int_lstrip t else s
  | EmptyString => EmptyString
  end.

(** The sign of an [int()] literal, and what follows it. *)
Definition split_sign (s : string) : Z * string :=
  match s with
  | String c t =>
      if Ascii.eqb c "+" then (1, t)
      else if Ascii.eqb c "-" then (-1, t)
      else (1, s)
  | EmptyString => (1, s)
  end.

(** For base 16, a [0x] or [0X] prefix is skipped, and one underscore after
    it. *)
Definition skip_prefix (base : Z) (s : string) : string :=
  match s with
  | String z (String x t) =>
      if (base =? 16) && Ascii.eqb z "0" && (Ascii.eqb x "x" || Ascii.eqb x "X")
      then match t with
           | String u t' => if is_underscore u then t' else t
           | EmptyString => t
           end
      else s
  | _ => s
  end.

(** [int(s, base)] for base 10 and 16: surrounding whitespace, a sign, the
    prefix of the base, the digits; anything else is a [ValueError]. *)
Definition py_int (base : Z) (s : string) : Result Z :=
  let '(sign, s) := split_sign (int_lstrip s) in
  match int_digits base None 0 (skip_prefix base s) with
  | Some (v, rest) =>
      if str_forall is_int_space rest then Ok (sign * v) else Raise ValueError
  | None => Raise ValueError
  end.

(** ** The data model *)

(** [EnvisalinkClient.Operation]: one queued outbound command. *)
Module Operation.

Inductive State := QUEUED | SENT | SUCCEEDED | RETRY | FAILED.

#[global] Instance State_eq_dec : EqDecision State.
Proof. solve_decision. Defined.

Record t := mk {
  cmd : string;
  data : string;
  code : option string;
  state : State;
  retryDelay : Q;
  expiryTime : Q
}.

(** [Operation(cmd, data, code)]: the class attributes give the rest. *)
Definition __init__ (cmd data : string) (code : option string) : t :=
  {| cmd := cmd; data := data; code := code;
     state := QUEUED; retryDelay := (1 # 10)%Q; expiryTime := 0%Q |}.

Definition set_state (s : State) (op : t) : t :=
  {| cmd := cmd op; data := data op; code := code op;
     state := s; retryDelay := retryDelay op; expiryTime := expiryTime op |}.

Definition set_retryDelay (d : Q) (op : t) : t :=
  {| cmd := cmd op; data := data op; code := code op;
     state := state op; retryDelay := d; expiryTime := expiryTime op |}.

Definition set_expiryTime (e : Q) (op : t) : t :=
  {| cmd := cmd op; data := data op; code := code op;
     state := state op; retryDelay := retryDelay op; expiryTime := e |}.

End Operation.

(** Modelled from the spec: the alarm state shared with the host, whose
    module [AlarmState] is not among these sources; a mapping that the
    decoders mutate, here the top-level keys the handlers write and, per
    partition number, the [status] record. *)
Record AlarmState := mkAlarmState {
  toplevel : gmap string PyVal;
  partition : gmap Z (gmap string PyVal)
}.

(** Modelled from the spec: the panel object of the host, not among these
    sources either; what the client reads of it. *)
Record AlarmPanel := mkAlarmPanel {
  command_timeout : Q;
  alarm_state : AlarmState
}.

(** What happened on the way in, kept as a ghost trace: a message the framer
    extracted, a handler method called, a host callback called. *)
Inductive Invocation :=
| Parsed (code data : string)
| HandlerCalled (name : string) (code data : PyVal)
| CallbackCalled (name : string) (result : PyVal).

(** The client object.  [_transport] is [None] before [connection_made] and
    otherwise holds the byte strings written so far, oldest first. *)
Record Client := mkClient {
  _loggedin : bool;
  _shutdown : bool;
  _cachedCode : option string;
  _commandEvent : bool;
  _commandQueue : list Operation.t;
  _transport : option (list string);
  _alarmPanel : AlarmPanel;
  _trace : list Invocation
}.

Definition with_queue (q : list Operation.t) (c : Client) : Client :=
  {| _loggedin := _loggedin c; _shutdown := _shutdown c;
     _cachedCode := _cachedCode c; _commandEvent := _commandEvent c;
     _commandQueue := q; _transport := _transport c;
     _alarmPanel := _alarmPanel c; _trace := _trace c |}.

Definition with_event (e : bool) (c : Client) : Client :=
  {| _loggedin := _loggedin c; _shutdown := _shutdown c;
     _cachedCode := _cachedCode c; _commandEvent := e;
     _commandQueue := _commandQueue c; _transport := _transport c;
     _alarmPanel := _alarmPanel c; _trace := _trace c |}.

Definition with_cachedCode (k : option string) (c : Client) : Client :=
  {| _loggedin := _loggedin c; _shutdown := _shutdown c;
     _cachedCode := k; _commandEvent := _commandEvent c;
     _commandQueue := _commandQueue c; _transport := _transport c;
     _alarmPanel := _alarmPanel c; _trace := _trace c |}.

Definition with_transport (t : option (list string)) (c : Client) : Client :=
  {| _loggedin := _loggedin c; _shutdown := _shutdown c;
     _cachedCode := _cachedCode c; _commandEvent := _commandEvent c;
     _commandQueue := _commandQueue c; _transport := t;
     _alarmPanel := _alarmPanel c; _trace := _trace c |}.

Definition with_loggedin (b : bool) (c : Client) : Client :=
  {| _loggedin := b; _shutdown := _shutdown c;
     _cachedCode := _cachedCode c; _commandEvent := _commandEvent c;
     _commandQueue := _commandQueue c; _transport := _transport c;
     _alarmPanel := _alarmPanel c; _trace := _trace c |}.

Definition with_alarm_state (a : AlarmState) (c : Client) : Client :=
  {| _loggedin := _loggedin c; _shutdown := _shutdown c;
     _cachedCode := _cachedCode c; _commandEvent := _commandEvent c;
     _commandQueue := _commandQueue c; _transport := _transport c;
     _alarmPanel := {| command_timeout := command_timeout (_alarmPanel c);
                       alarm_state := a |};
     _trace := _trace c |}.

Definition record (i : Invocation) (c : Client) : Client :=
  {| _loggedin := _loggedin c; _shutdown := _shutdown c;
     _cachedCode := _cachedCode c; _commandEvent := _commandEvent c;
     _commandQueue := _commandQueue c; _transport := _transport c;
     _alarmPanel := _alarmPanel c; _trace := (_trace c ++ [i])%list |}.

(** [EnvisalinkClient.__init__(panel, loop)]. *)
Definition EnvisalinkClient_init (panel : AlarmPanel) : Client :=
  {| _loggedin := false; _shutdown := false; _cachedCode := None;
     _commandEvent := false; _commandQueue := []; _transport := None;
     _alarmPanel := panel; _trace := [] |}.

(** [connection_made(transport)], with a transport nothing was written to. *)
Definition connection_made (c : Client) : Client :=
  with_transport (Some []) c.

(** ** The vendor tables

    [honeywell_client.py] takes its tables from [honeywell_envisalinkdefs]
    with a star import; that module is not part of these sources, so the
    tables are a parameter of everything below. *)

Record ResponseInfo := mkResponseInfo { retry : bool; msg : string }.

Record PartitionStatus := mkPartitionStatus { name : string }.

(** The bit fields of [IconLED_Flags] the keypad handler reads. *)
Record IconLED := mkIconLED {
  alarm : bool; alarm_in_memory : bool; armed_away : bool;
  ac_present : bool; bypass : bool; chime : bool;
  armed_zero_entry_delay : bool; alarm_fire_zone : bool;
  system_trouble : bool; ready : bool; fire : bool;
  armed_stay : bool; low_battery : bool
}.

Record Defs := mkDefs {
  (** code -> entry; the framer reads the entry's ['handler'] key. *)
  evl_ResponseTypes : gmap string (gmap string string);
  evl_TPI_Response_Codes : gmap string ResponseInfo;
  evl_Partition_Status_Codes : gmap string PartitionStatus;
  evl_Virtual_Keypad_How_To_Beep : gmap string string;
  (** The fields of an [IconLED_Flags] whose [asShort] was set to a value. *)
  IconLED_Flags : Z -> IconLED;
  (** [handle_command_response] reads a global [errorInfo], which neither
      source file binds: [Some] when the star import binds that name to a
      table entry, [None] when the name is unbound. *)
  errorInfo : option ResponseInfo
}.

(** ** The command queue ([envisalink_base_client.py]) *)

Import Operation.

(** [send_data(data)]: the debug line encodes [data] outside the [try]; the
    write appends CR LF.  Without a transport the attribute access on [None]
    raises.  Returns [None]. *)
Definition send_data (data : string) (c : Client) : Result PyVal * Client :=
  if negb (is_ascii data) then (Raise UnicodeError, c)
  else
    match _transport c with
    | None => (Raise AttributeError, c)
    | Some written => (Ok PNone, with_transport (Some (written ++ [data +:+ CRLF])%list) c)
    end.

(** What calling an [async def] method evaluates to: a coroutine object
    holding the body, which has not run and runs only if the object is
    awaited. *)
Inductive Coroutine := coroutine (body : Client -> Result PyVal * Client).

Definition run_coroutine (k : Coroutine) (c : Client) : Result PyVal * Client :=
  match k with coroutine body => body c end.

(** [await v] on a value that is no awaitable. *)
Definition await_value (v : PyVal) : Result PyVal := Raise TypeError.

(** [HoneywellClient.send_command], an [async def]; its body awaits the
    return value of the plain method [send_data]. *)
Definition send_command (code data : string) : Coroutine :=
  coroutine (fun c =>
    let to_send := "^" +:+ code +:+ "," +:+ data +:+ "$" in
    match send_data to_send c with
    | (Ok r, c') => (await_value r, c')
    | (Raise e, c') => (Raise e, c')
    end).

(** [queue_command(cmd, data, code)].  The sum that gives the expiry time
    is exact here; Python rounds it to the nearest binary64. *)
Definition queue_command (cmd data : string) (code : option string) (now : Q)
    (c : Client) : Client :=
  let op := Operation.__init__ cmd data code in
  let op := set_expiryTime (now + command_timeout (_alarmPanel c))%Q op in
  with_event true (with_queue (_commandQueue c ++ [op])%list c).

Inductive Flow := Continue | Break.

(** One turn of the inner [while self._commandQueue] loop of
    [process_command_queue], on the head [op] of the queue [op :: rest].
    The QUEUED branch calls [send_command] as a plain statement: the
    coroutine object it gets is dropped. *)
Definition scan_head (now : Q) (op : Operation.t) (rest : list Operation.t)
    (c : Client) : Client * Flow :=
  match state op with
  | SENT =>
      if Qle_bool (expiryTime op) now
      then (with_queue (set_state FAILED op :: rest) c, Break)
      else (c, Break)
  | QUEUED =>
      let c := with_queue (set_state SENT op :: rest) c in
      let c := with_cachedCode (code op) c in
      let _ := send_command (cmd op) (data op) in
      (c, Continue)
  | SUCCEEDED => (with_queue rest c, Continue)
  | RETRY =>
      if Qle_bool (expiryTime op) now
      then (with_queue (set_state QUEUED op :: rest) c, Continue)
      else (c, Break)
  | FAILED => (with_queue rest c, Continue)
  end.

(** The inner loop; [last] is the local [op], the head looked at last.
    [None] when the turns allowed are used up. *)
Fixpoint scan_queue (turns : nat) (now : Q) (last : option Operation.t)
    (c : Client) : option (option Operation.t * Client) :=
  match turns with
  | O => None
  | S turns' =>
      match _commandQueue c with
      | [] => Some (last, c)
      | op :: rest =>
          match scan_head now op rest c with
          | (c', Break) => Some (Some op, c')
          | (c', Continue) => scan_queue turns' now (Some op) c'
          end
      end
  end.

(** Turns that always suffice: a head is looked at three times at most
    (RETRY, QUEUED, SENT) before the loop breaks or pops it. *)
Definition scan_turns (c : Client) : nat := 3 * length (_commandQueue c) + 1.

(** One pass of the outer loop of [process_command_queue], up to the
    [await]: scan the queue, compute the sleep, clear the event.  Returns
    the timeout of the wait and the client. *)
Definition process_command_queue (now : Q) (c : Client) : option (Q * Client) :=
  match scan_queue (scan_turns c) now None c with
  | None => None
  | Some (last, c') =>
      let timeout :=
        match last with
        | Some op => (expiryTime op - now)%Q
        | None => command_timeout (_alarmPanel c')
        end in
      Some (timeout, with_event false c')
  end.

(** [command_succeeded(cmd)]; [cmd] is [None] or a [str]. *)
Definition truthy (cmd : option string) : bool :=
  match cmd with
  | Some s => negb (String.eqb s "")
  | None => false
  end.

Definition command_succeeded (cmd : option string) (c : Client) : Client :=
  let c' :=
    match _commandQueue c with
    | op :: rest =>
        if truthy cmd && negb (bool_decide (Some (Operation.cmd op) = cmd))
        then c
        else with_queue (set_state SUCCEEDED op :: rest) c
    | [] => c
    end in
  with_event true c'.

(** [command_failed(retry)].  Doubling the delay is exact in binary64 as it
    is here; the sum that gives the expiry time is exact here and rounded
    to the nearest binary64 in Python. *)
Definition command_failed (retry : bool) (now : Q) (c : Client) : Client :=
  let c' :=
    match _commandQueue c with
    | op :: rest =>
        if negb (bool_decide (state op = SENT)) then c
        else if negb retry then with_queue (set_state FAILED op :: rest) c
        else
          let op := set_retryDelay (retryDelay op * 2)%Q op in
          if Qle_bool (command_timeout (_alarmPanel c)) (retryDelay op)
          then with_queue (set_state FAILED op :: rest) c
          else
            let op := set_state RETRY op in
            let op := set_expiryTime (now + retryDelay op)%Q op in
            with_queue (op :: rest) c
    | [] => c
    end in
  with_event true c'.

(** ** The zone-timer decoder ([envisalink_base_client.py]) *)

(** Result of [handle_zone_timer_dump]'s decoder, one per zone. *)
Record ZoneInfo := mkZoneInfo { zone : Z; status : string; seconds : Z }.

(** The body of the loop of [convertZoneDump], over the words still to do. *)
Fixpoint convertZoneDump_items (zoneNumber : Z) (inputItems : list string)
  : Result (list ZoneInfo) :=
  match inputItems with
  | [] => Ok []
  | inputItem :: rest =>
      let swapedBytes := [slice 0 2 inputItem] in
      let swapedBytes := slice 2 4 inputItem :: swapedBytes in
      let itemHexString := join "" swapedBytes in
      itemInt ← py_int 16 itemHexString;
      let MAXINT := 65536 in
      let itemTicks := MAXINT - itemInt in
      let itemSeconds := itemTicks * 5 in
      let status := if itemSeconds <? 30 then "open" else "closed" in
      returnItems ← convertZoneDump_items (zoneNumber + 1) rest;
      Ok ({| zone := zoneNumber; status := status; seconds := itemSeconds |}
            :: returnItems)
  end.

(** [convertZoneDump(theString)]. *)
Definition convertZoneDump (theString : string) : Result (list ZoneInfo) :=
  convertZoneDump_items 1 (findall4 theString).

(** ** The Honeywell client ([honeywell_client.py]) and the inbound path *)

(** The characters of the two regular expressions of the framer. *)
Definition is_sentinel (c : ascii) : bool := Ascii.eqb c "%" || Ascii.eqb c "^".

Definition is_linebreak (c : ascii) : bool := Ascii.eqb c CR || Ascii.eqb c LF.

Definition str_empty (s : string) : bool := String.eqb s "".

Section Honeywell.

Variable defs : Defs.

(** The [try] that ends [parseHandler]: both keys are set when the table
    has the code and its entry a ['handler']; otherwise the [KeyError] is
    caught before either is set. *)
Definition add_dispatch (code : string) (cmd : gmap string string)
  : gmap string string :=
  match evl_ResponseTypes defs !! code ≫= (.!! "handler") with
  | Some h =>
      <["callback" := "callback_" +:+ h]> (<["handler" := "handle_" +:+ h]> cmd)
  | None => cmd
  end.

Definition opt_str (s : option string) : PyVal :=
  match s with Some s => PStr s | None => PNone end.

(** [parseHandler(rawInput)]: always a 2-tuple, [(cmd, rest)] or
    [(None, rest)]. *)
Definition parseHandler (rawInput : string) (c : Client) : PyVal :=
  if negb (_loggedin c) then
    let '(code, rest) :=
      span (fun ch => negb (is_linebreak ch || is_sentinel ch)) rawInput in
    if str_empty code then PTuple PNone PNone
    else
      let cmd := <["data" := ""]> (<["code" := code]> ∅) in
      let cmd := add_dispatch code cmd in
      let rawInput :=
        if negb (str_empty rest) && (String.length rest =? 0)%nat
        then None else Some rest in
      PTuple (PDict cmd) (opt_str rawInput)
  else
    let rawInput := str_filter (fun ch => negb (is_linebreak ch)) rawInput in
    if str_empty rawInput then PTuple PNone PNone
    else
      match rawInput with
      | String ch _ =>
          if negb (is_sentinel ch) then PTuple PNone PNone
          else
            let start_idx := 0%nat in
            let rawInput :=
              if negb (start_idx =? 0)%nat then str_drop start_idx rawInput
              else rawInput in
            match find "$" rawInput with
            | None =>
                PTuple PNone
                  (if (String.length rawInput =? 0)%nat then PNone
                   else PStr rawInput)
            | Some end_idx =>
                let inputList := slice start_idx end_idx rawInput in
                let '(code, data) :=
                  match find "," inputList with
                  | None => (inputList, "")
                  | Some cmd_sep_idx =>
                      (slice 0 cmd_sep_idx inputList,
                       str_drop (cmd_sep_idx + 1) inputList)
                  end in
                let cmd := <["data" := data]> (<["code" := code]> ∅) in
                let rest := str_drop (end_idx + 1) rawInput in
                let cmd := add_dispatch code cmd in
                let rawInput :=
                  if negb (str_empty rest) && (String.length rest =? 0)%nat
                  then None else Some rest in
                PTuple (PDict cmd) (opt_str rawInput)
            end
      | EmptyString => PTuple PNone PNone
      end.

(** The message a [parseHandler] result carries, if any. *)
Definition message_of (r : PyVal) : option (string * string) :=
  match r with
  | PTuple (PDict cmd) _ =>
      code ← cmd !! "code"; data ← cmd !! "data"; Some (code, data)
  | _ => None
  end.

(** *** Handlers *)

(** [handle_login_success(code, data)], inherited from the base class. *)
Definition handle_login_success (code data : string) (c : Client)
  : Result PyVal * Client :=
  (Ok PNone, with_loggedin true c).

(** [handle_command_response(code, data)].  In the negative branch the
    looked-up entry is [responseInfo], the flag is read from [errorInfo]. *)
Definition handle_command_response (code data : string) (now : Q) (c : Client)
  : Result PyVal * Client :=
  match evl_TPI_Response_Codes defs !! data with
  | Some responseInfo =>
      if String.eqb data "00" then
        (Ok PNone, command_succeeded (Some (str_drop 1 code)) c)
      else
        match errorInfo defs with
        | None => (Raise NameError, c)
        | Some errorInfo => (Ok PNone, command_failed (retry errorInfo) now c)
        end
  | None => (Ok PNone, command_failed false now c)
  end.

(** [l[i]] on a list. *)
Definition list_index {A} (l : list A) (i : nat) : Result A :=
  match l !! i with
  | Some x => Ok x
  | None => Raise IndexError
  end.

(** The fields [handle_keypad_update] reads off its payload before it
    touches the alarm state. *)
Definition keypad_fields (dataList : list string)
  : Result (Z * IconLED * Z * string * string) :=
  p ← list_index dataList 0;
  partitionNumber ← py_int 10 p;
  f ← list_index dataList 1;
  asShort ← py_int 16 f;
  let flags := IconLED_Flags defs asShort in
  u ← list_index dataList 2;
  user_zone_field ← py_int 10 u;
  b ← list_index dataList 3;
  let beep := default "unknown" (evl_Virtual_Keypad_How_To_Beep defs !! b) in
  alpha ← list_index dataList 4;
  Ok (partitionNumber, flags, user_zone_field, beep, alpha).

(** The [status.update({...})] of [handle_keypad_update]. *)
Definition keypad_status (flags : IconLED) (alpha beep : string)
    (status : gmap string PyVal) : gmap string PyVal :=
  <["beep" := PStr beep]> (
  <["alpha" := PStr alpha]> (
  <["bat_trouble" := PBool (low_battery flags)]> (
  <["armed_stay" := PBool (armed_stay flags)]> (
  <["fire" := PBool (fire flags)]> (
  <["ready" := PBool (ready flags)]> (
  <["trouble" := PBool (system_trouble flags)]> (
  <["alarm_fire_zone" := PBool (alarm_fire_zone flags)]> (
  <["armed_zero_entry_delay" := PBool (armed_zero_entry_delay flags)]> (
  <["chime" := PBool (chime flags)]> (
  <["armed_bypass" := PBool (bypass flags)]> (
  <["ac_present" := PBool (ac_present flags)]> (
  <["armed_away" := PBool (armed_away flags)]> (
  <["alarm_in_memory" := PBool (alarm_in_memory flags)]> (
  <["alarm" := PBool (alarm flags)]> status)))))))))))))).

Definition set_partition_status (partitionNumber : Z)
    (status : gmap string PyVal) (a : AlarmState) : AlarmState :=
  {| toplevel := toplevel a;
     partition := <[partitionNumber := status]> (partition a) |}.

(** [handle_keypad_update(code, data)].  After the update both branches
    of the last [if] call [self.set_next_expected_receive_window], a
    method neither class defines. *)
Definition handle_keypad_update (code data : string) (now : Q) (c : Client)
  : Result PyVal * Client :=
  let dataList := split_char "," data in
  let dataList :=
    if (5 <? length dataList)%nat
    then (take 4 dataList ++ [join "," (drop 4 dataList)])%list
    else dataList in
  if contains "%" data then (Ok PNone, c)
  else
    match keypad_fields dataList with
    | Raise e => (Raise e, c)
    | Ok (partitionNumber, flags, user_zone_field, beep, alpha) =>
        let a := alarm_state (_alarmPanel c) in
        match partition a !! partitionNumber with
        | None => (Raise KeyError, c)
        | Some status =>
            let status := keypad_status flags alpha beep status in
            let c := with_alarm_state (set_partition_status partitionNumber status a) c in
            if (armed_stay flags || armed_away flags) && negb (user_zone_field =? 0)
            then (Raise AttributeError, c)
            else (Raise AttributeError, c)
        end
    end.

(** [x in ('ARMED_STAY', 'ARMED_AWAY', 'ARMED_MAX')]. *)
Definition is_armed_name (n : string) : bool :=
  String.eqb n "ARMED_STAY" || String.eqb n "ARMED_AWAY" || String.eqb n "ARMED_MAX".

(** One turn of the loop of [handle_partition_state_change]. *)
Definition partition_state_step (data : string) (currentIndex : nat)
    (a : AlarmState) : Result unit * AlarmState :=
  let partitionStateCode := slice (currentIndex * 2) (currentIndex * 2 + 2) data in
  match evl_Partition_Status_Codes defs !! partitionStateCode with
  | None => (Raise KeyError, a)
  | Some partitionState =>
      let partitionNumber := Z.of_nat currentIndex + 1 in
      match partition a !! partitionNumber with
      | None => (Raise KeyError, a)
      | Some status =>
          let previouslyArmed := default (PBool false) (status !! "armed") in
          let armed := is_armed_name (name partitionState) in
          let is_delay := String.eqb (name partitionState) "EXIT_ENTRY_DELAY" in
          let top :=
            <["cancel" := PBool is_delay]> (
            <["disarm" := PBool armed]> (
            <["arm" := PBool (negb armed)]> (toplevel a))) in
          let status :=
            <["ready" := PBool (String.eqb (name partitionState) "READY"
                                || String.eqb (name partitionState) "READY_BYPASS")]> (
            <["armed" := PBool armed]> (
            <["entry_delay" := PBool (is_delay && py_bool previouslyArmed)]> (
            <["exit_delay" := PBool (is_delay && negb (py_bool previouslyArmed))]>
              status))) in
          let status :=
            if String.eqb (name partitionState) "NOT_READY"
            then <["ready" := PBool false]> status else status in
          (Ok (),
           {| toplevel := top;
              partition := <[partitionNumber := status]> (partition a) |})
      end
  end.

(** The [for currentIndex in ...] loop over the indices still to do. *)
Fixpoint partition_state_loop (data : string) (indices : list nat)
    (a : AlarmState) : Result unit * AlarmState :=
  match indices with
  | [] => (Ok (), a)
  | currentIndex :: rest =>
      match partition_state_step data currentIndex a with
      | (Ok _, a') => partition_state_loop data rest a'
      | (Raise e, a') => (Raise e, a')
      end
  end.

(** [handle_partition_state_change(code, data)]. *)
Definition handle_partition_state_change (code data : string) (c : Client)
  : Result PyVal * Client :=
  match partition_state_loop data (seq 0 8) (alarm_state (_alarmPanel c)) with
  | (Ok _, a) => (Ok PNone, with_alarm_state a c)
  | (Raise e, a) => (Raise e, with_alarm_state a c)
  end.

(** *** Dispatch *)

(** The attributes [getattr(self, name)] and [getattr(self._alarmPanel,
    name)] find, as callables on the client; [None] is the
    [AttributeError]. *)
Variable methods : string -> option (PyVal -> PyVal -> Client -> Result PyVal * Client).
Variable callbacks : string -> option (PyVal -> Client -> Result PyVal * Client).

(** [except (AttributeError, TypeError, KeyError)]. *)
Definition caught (e : PyExc) : bool :=
  match e with
  | AttributeError | TypeError | KeyError => true
  | _ => false
  end.

(** [getattr(obj, name)] wants a [str] for [name]. *)
Definition getattr {A} (attrs : string -> option A) (name : PyVal) : Result A :=
  match name with
  | PStr n => match attrs n with Some f => Ok f | None => Raise AttributeError end
  | _ => Raise TypeError
  end.

Definition attr_name (name : PyVal) : string :=
  match name with PStr n => n | _ => "" end.

(** The first [try] of the loop of [data_received], on the value [cmd]
    that [parseHandler] returned: the debug line reads three keys, then
    the handler is looked up and called.  The value is the new [result]. *)
Definition try_handler (cmd result : PyVal) (c : Client) : Result PyVal * Client :=
  let attempt :=
    match (_ ← py_getitem cmd (PStr "handler");
           _ ← py_getitem cmd (PStr "code");
           _ ← py_getitem cmd (PStr "data");
           h ← py_getitem cmd (PStr "handler");
           handlerFunc ← getattr methods h;
           code ← py_getitem cmd (PStr "code");
           data ← py_getitem cmd (PStr "data");
           Ok (h, handlerFunc, code, data)) with
    | Ok (h, handlerFunc, code, data) =>
        handlerFunc code data (record (HandlerCalled (attr_name h) code data) c)
    | Raise e => (Raise e, c)
    end in
  match attempt with
  | (Ok r, c') => (Ok r, c')
  | (Raise e, c') => if caught e then (Ok result, c') else (Raise e, c')
  end.

(** The second [try]: the callback of the host, called with [result]. *)
Definition try_callback (cmd result : PyVal) (c : Client) : Result unit * Client :=
  let attempt :=
    match (_ ← py_getitem cmd (PStr "callback");
           cb ← py_getitem cmd (PStr "callback");
           callbackFunc ← getattr callbacks cb;
           Ok (cb, callbackFunc)) with
    | Ok (cb, callbackFunc) =>
        callbackFunc result (record (CallbackCalled (attr_name cb) result) c)
    | Raise e => (Raise e, c)
    end in
  match attempt with
  | (Ok _, c') => (Ok (), c')
  | (Raise e, c') => if caught e then (Ok (), c') else (Raise e, c')
  end.

(** The [for line in lines] loop; an exception no [except] names ends
    it. *)
Fixpoint data_received_lines (lines : list string) (result : PyVal)
    (c : Client) : Result unit * Client :=
  match lines with
  | [] => (Ok (), c)
  | line :: lines' =>
      let cmd := parseHandler line c in
      let c :=
        match message_of cmd with
        | Some (code, data) => record (Parsed code data) c
        | None => c
        end in
      match try_handler cmd result c with
      | (Raise e, c') => (Raise e, c')
      | (Ok result, c') =>
          match try_callback cmd result c' with
          | (Raise e, c'') => (Raise e, c'')
          | (Ok _, c'') => data_received_lines lines' result c''
          end
      end
  end.

(** [data_received(data)].  [data] is a [bytes], which never equals the
    [str] [''], so the guard always holds. *)
Definition data_received (data : string) (c : Client) : Result unit * Client :=
  if true then
    match decode_ascii data with
    | None => (Ok (), c)
    | Some decoded =>
        let fullData := strip decoded in
        let result := PStr "" in
        let lines := split_crlf fullData in
        data_received_lines lines result c
    end
  else (Ok (), c).

End Honeywell.

(** ** An instance of the tables and of the client, for concrete runs *)

(** Modelled from the spec: an instance of the dispatch table of
    [honeywell_envisalinkdefs], code to handler name, with a few of the
    codes of the protocol. *)
Definition sample_ResponseTypes : gmap string (gmap string string) :=
  <["%00" := <["handler" := "keypad_update"]> ∅]> (
  <["%02" := <["handler" := "partition_state_change"]> ∅]> (
  <["^03" := <["handler" := "command_response"]> ∅]> (
  <["OK" := <["handler" := "login_success"]> ∅]> ∅))).

(** Modelled from the spec: an instance of the table of acknowledgement
    codes, ['00'] for success and negative codes with their retry flag. *)
Definition sample_TPI_Response_Codes : gmap string ResponseInfo :=
  <["00" := mkResponseInfo false "Command Accepted"]> (
  <["01" := mkResponseInfo true "Receive Buffer Overrun"]> (
  <["02" := mkResponseInfo false "Unknown Command"]> ∅)).

(** Modelled from the spec: an instance of the static table from
    two-character partition codes to named states. *)
Definition sample_Partition_Status_Codes : gmap string PartitionStatus :=
  <["00" := mkPartitionStatus "NOT_USED"]> (
  <["01" := mkPartitionStatus "READY"]> (
  <["02" := mkPartitionStatus "READY_BYPASS"]> (
  <["03" := mkPartitionStatus "NOT_READY"]> (
  <["04" := mkPartitionStatus "ARMED_STAY"]> (
  <["05" := mkPartitionStatus "ARMED_AWAY"]> (
  <["06" := mkPartitionStatus "ARMED_MAX"]> (
  <["07" := mkPartitionStatus "EXIT_ENTRY_DELAY"]> ∅))))))).

(** Modelled from the spec: the icon/LED flags as bit-mapped booleans of a
    16-bit value, one bit each from the least significant on. *)
Definition sample_IconLED_Flags (asShort : Z) : IconLED :=
  let v := asShort mod 65536 in
  {| alarm := Z.testbit v 0; alarm_in_memory := Z.testbit v 1;
     armed_away := Z.testbit v 2; ac_present := Z.testbit v 3;
     bypass := Z.testbit v 4; chime := Z.testbit v 5;
     armed_zero_entry_delay := Z.testbit v 7; alarm_fire_zone := Z.testbit v 8;
     system_trouble := Z.testbit v 9; ready := Z.testbit v 12;
     fire := Z.testbit v 13; low_battery := Z.testbit v 14;
     armed_stay := Z.testbit v 15 |}.

Definition sample_defs : Defs :=
  {| evl_ResponseTypes := sample_ResponseTypes;
     evl_TPI_Response_Codes := sample_TPI_Response_Codes;
     evl_Partition_Status_Codes := sample_Partition_Status_Codes;
     evl_Virtual_Keypad_How_To_Beep := <["00" := "off"]> ∅;
     IconLED_Flags := sample_IconLED_Flags;
     errorInfo := None |}.

(** An alarm state with eight partitions, nothing recorded yet. *)
Definition sample_alarm_state : AlarmState :=
  {| toplevel := ∅;
     partition := list_to_map ((fun n => (Z.of_nat n, ∅)) <$> seq 1 8) |}.

Definition sample_panel : AlarmPanel :=
  {| command_timeout := 20%Q; alarm_state := sample_alarm_state |}.

(** A connected client that has logged in. *)
Definition sample_client : Client :=
  with_loggedin true (connection_made (EnvisalinkClient_init sample_panel)).

Definition str_arg (v : PyVal) : string :=
  match v with PStr s => s | _ => "" end.

(** The handler methods modelled above, as [getattr(self, name)] finds
    them. *)
Definition sample_methods (now : Q) (n : string)
  : option (PyVal -> PyVal -> Client -> Result PyVal * Client) :=
  if String.eqb n "handle_login_success"
  then Some (fun code data => handle_login_success (str_arg code) (str_arg data))
  else if String.eqb n "handle_command_response"
  then Some (fun code data => handle_command_response sample_defs (str_arg code) (str_arg data) now)
  else if String.eqb n "handle_keypad_update"
  then Some (fun code data => handle_keypad_update sample_defs (str_arg code) (str_arg data) now)
  else if String.eqb n "handle_partition_state_change"
  then Some (fun code data => handle_partition_state_change sample_defs (str_arg code) (str_arg data))
  else None.

(** A host that has a callback for every name and does nothing in it. *)
Definition sample_callbacks (n : string)
  : option (PyVal -> Client -> Result PyVal * Client) :=
  Some (fun result c => (Ok PNone, c)).

(** ** Notions the properties are stated with *)

(** Every operation behind the head is still QUEUED: the invariant that the
    queue operations keep. *)
Definition waiting_behind_head (q : list Operation.t) : Prop :=
  Forall (fun op => state op = QUEUED) (tail q).

(** At most one operation is SENT, and only the head can be. *)
Definition at_most_one_sent_at_head (q : list Operation.t) : Prop :=
  (length (filter (fun op => state op = SENT) q) <= 1)%nat
  /\ forall i op, q !! i = Some op -> state op = SENT -> i = 0%nat.

(** The inner loop ends: each turn that does not break makes this weight
    of the queue smaller. *)
Definition state_weight (s : State) : nat :=
  match s with
  | RETRY => 3
  | QUEUED => 2
  | SENT | SUCCEEDED | FAILED => 1
  end.

Fixpoint queue_weight (q : list Operation.t) : nat :=
  match q with
  | [] => 0
  | op :: rest => state_weight (state op) + queue_weight rest
  end.

(** The calls that touch the queue, in any order: the host queueing a
    command, the inbound path reporting an acknowledgement, the processor
    task making a pass. *)
Inductive Call :=
| call_queue_command (cmd data : string) (code : option string) (now : Q)
| call_command_succeeded (cmd : option string)
| call_command_failed (retry : bool) (now : Q)
| call_processor_pass (now : Q).

Definition do_call (k : Call) (c : Client) : option Client :=
  match k with
  | call_queue_command cmd data code now => Some (queue_command cmd data code now c)
  | call_command_succeeded cmd => Some (command_succeeded cmd c)
  | call_command_failed retry now => Some (command_failed retry now c)
  | call_processor_pass now => snd <$> process_command_queue now c
  end.

Fixpoint run (calls : list Call) (c : Client) : option Client :=
  match calls with
  | [] => Some c
  | k :: calls' => do_call k c ≫= run calls'
  end.

(** An operation was retried once at most: its delay is the first one,
    0.1 s, or it is the double of that and the operation is waiting for its
    retry or finished. *)
Definition retried_once_at_most (op : Operation.t) : Prop :=
  retryDelay op = (1 # 10)%Q
  \/ (retryDelay op = (2 # 10)%Q
      /\ (state op = RETRY \/ state op = FAILED \/ state op = SUCCEEDED)).

(** The same for the head during a pass made at [now]: a head with the
    doubled delay may be QUEUED or SENT again once its expiry time has
    come. *)
Definition retried_once_by (now : Q) (op : Operation.t) : Prop :=
  retryDelay op = (1 # 10)%Q
  \/ (retryDelay op = (2 # 10)%Q
      /\ (state op = RETRY \/ state op = FAILED \/ state op = SUCCEEDED
          \/ Qle_bool (expiryTime op) now = true)).

Definition scan_bounded (now : Q) (q : list Operation.t) : Prop :=
  match q with
  | [] => True
  | op :: rest => retried_once_by now op /\ Forall retried_once_at_most rest
  end.

(** A command queued at time 0 with a timeout of 20 s, met by a pass, refused
    with a retry at time 1, met by a pass at time 2 and refused with a retry
    again at time 3. *)
Definition backoff_calls : list Call :=
  [call_queue_command "A" "1" None 0%Q; call_processor_pass (1 # 2)%Q;
   call_command_failed true 1%Q; call_processor_pass 2%Q;
   call_command_failed true 3%Q].

(** [cmd] counts as unspecified when it is falsy: [None] or the empty
    string. *)
Definition unspecified (cmd : option string) : Prop :=
  cmd = None \/ cmd = Some "".

(** A client whose only command is in flight. *)
Definition sent_op : Operation.t :=
  set_state SENT (set_expiryTime 20%Q (Operation.__init__ "A" "1" None)).

Definition sent_client : Client := with_queue [sent_op] sample_client.

(** The messages the framer extracted, in order, from the trace. *)
Definition messages (c : Client) : list (string * string) :=
  omap (fun i => match i with Parsed code data => Some (code, data) | _ => None end)
       (_trace c).

(** The handlers and callbacks that were called, in order. *)
Definition calls_made (c : Client) : list Invocation :=
  List.filter (fun i => match i with Parsed _ _ => false | _ => true end) (_trace c).

Definition record_messages (msgs : list (string * string)) (c : Client) : Client :=
  foldl (fun c m => record (Parsed m.1 m.2) c) c msgs.

(** The inbound chunks fed to [data_received] one after the other. *)
Definition feed (defs : Defs)
    (methods : string -> option (PyVal -> PyVal -> Client -> Result PyVal * Client))
    (callbacks : string -> option (PyVal -> Client -> Result PyVal * Client))
    (chunks : list string) (c : Client) : Client :=
  foldl (fun c chunk => snd (data_received defs methods callbacks chunk c)) c chunks.

(** The zone-timer dump in the words of its description: hex digits, words
    of four, halves swapped, an unsigned value. *)
Definition hex_digit (c : ascii) : option Z :=
  let n := Z.of_nat (nat_of_ascii c) in
  if (48 <=? n) && (n <=? 57) then Some (n - 48)
  else if (65 <=? n) && (n <=? 70) then Some (n - 55)
  else if (97 <=? n) && (n <=? 102) then Some (n - 87)
  else None.

Definition is_hex (c : ascii) : bool :=
  match hex_digit c with Some _ => true | None => false end.

(** The number a string of hex digits writes, most significant first. *)
Fixpoint hex_value_from (acc : Z) (s : string) : Z :=
  match s with
  | EmptyString => acc
  | String c t => hex_value_from (acc * 16 + default 0 (hex_digit c)) t
  end.

Definition hex_value (s : string) : Z := hex_value_from 0 s.

(** The consecutive words of four characters; a shorter end is left out. *)
Fixpoint words4 (s : string) : list string :=
  match s with
  | String a (String b (String c (String d rest))) =>
      String a (String b (String c (String d ""))) :: words4 rest
  | _ => []
  end.

(** A word of four with its two halves of two exchanged. *)
Definition swap_halves (w : string) : string :=
  match w with
  | String a (String b (String c (String d EmptyString))) =>
      String c (String d (String a (String b "")))
  | _ => w
  end.

(** The three top-level keys, as one turn of the partition loop writes
    them for a partition in state [st]. *)
Definition write_arm_keys (st : PartitionStatus) (top : gmap string PyVal)
  : gmap string PyVal :=
  <["cancel" := PBool (String.eqb (name st) "EXIT_ENTRY_DELAY")]> (
  <["disarm" := PBool (is_armed_name (name st))]> (
  <["arm" := PBool (negb (is_armed_name (name st)))]> top)).

(** C9 as it is worded: a keypad payload holding a [%] or a [^] leaves the
    alarm state as it was. *)
Definition keypad_update_rejects_sentinels : Prop :=
  forall defs code data now c,
    contains "%" data || contains "^" data = true ->
    alarm_state (_alarmPanel (snd (handle_keypad_update defs code data now c)))
    = alarm_state (_alarmPanel c).

(** Eight partitions of which the last is armed away and the others are
    ready. *)
Definition sample_states (i : nat) : PartitionStatus :=
  if (i =? 7)%nat then mkPartitionStatus "ARMED_AWAY" else mkPartitionStatus "READY".

(** C10 as it is worded: after a call on a payload of sixteen characters
    the three top-level keys are as the state of partition 8 sets them. *)
Definition arm_keys_follow_partition_8 : Prop :=
  forall defs code data c st8,
    String.length data = 16%nat ->
    evl_Partition_Status_Codes defs !! slice 14 16 data = Some st8 ->
    let a := alarm_state (_alarmPanel
               (snd (handle_partition_state_change defs code data c))) in
    toplevel a !! "arm" = Some (PBool (negb (is_armed_name (name st8))))
    /\ toplevel a !! "disarm" = Some (PBool (is_armed_name (name st8)))
    /\ toplevel a !! "cancel"
       = Some (PBool (String.eqb (name st8) "EXIT_ENTRY_DELAY")).

From Stdlib Require Import Lqa.

(** ** Notions the further properties are stated with *)

(** No carriage return and no line feed. *)
Definition no_linebreak (s : string) : bool :=
  str_forall (fun ch => negb (is_linebreak ch)) s.

(** The line starts with [%] or [^]. *)
Definition starts_with_sentinel (s : string) : bool :=
  match s with
  | String ch _ => is_sentinel ch
  | EmptyString => false
  end.

(** The line starts with a character that can open the login banner:
    none of CR, LF, [%], [^]. *)
Definition starts_banner (s : string) : bool :=
  match s with
  | String ch _ => negb (is_linebreak ch || is_sentinel ch)
  | EmptyString => false
  end.

(** What identifies a queued command: the three arguments of
    [queue_command]. *)
Definition op_ident (op : Operation.t) : string * string * option string :=
  (cmd op, data op, code op).

(** The commands the host queued in a sequence of calls, in order. *)
Fixpoint queued_commands (calls : list Call) : list (string * string * option string) :=
  match calls with
  | [] => []
  | call_queue_command cmd data code _ :: calls' =>
      (cmd, data, code) :: queued_commands calls'
  | _ :: calls' => queued_commands calls'
  end.

(** Two commands queued, the first met by a pass, acknowledged and
    dropped by the next pass. *)
Definition fifo_calls : list Call :=
  [call_queue_command "A" "1" None 0%Q; call_queue_command "B" "2" None 0%Q;
   call_processor_pass 1%Q; call_command_succeeded None; call_processor_pass 2%Q].

Definition fifo_client : Client :=
  Eval vm_compute in
    default sample_client (run fifo_calls (EnvisalinkClient_init sample_panel)).

(** The pass made, at time 25, over the client whose command in flight
    expired at time 20. *)
Definition timed_out_pass : Q * Client :=
  Eval vm_compute in
    default (0%Q, sample_client) (process_command_queue 25%Q sent_client).

(** An operation is finished: SUCCEEDED or FAILED. *)
Definition finished (op : Operation.t) : bool :=
  match state op with
  | SUCCEEDED | FAILED => true
  | _ => false
  end.

(** The queue without its leading finished operations. *)
Fixpoint drop_finished (q : list Operation.t) : list Operation.t :=
  match q with
  | op :: rest => if finished op then drop_finished rest else q
  | [] => []
  end.

(** Two finished commands ahead of one that waits. *)
Definition finished_ahead : Client :=
  with_queue [set_state SUCCEEDED sent_op; set_state FAILED sent_op;
              set_expiryTime 50%Q (Operation.__init__ "B" "2" None)]
             sample_client.


(** * Properties *)

(** ** The command queue *)

Lemma with_event_queue e c : _commandQueue (with_event e c) = _commandQueue c.
Proof. reflexivity. Qed.

Lemma filter_sent_queued (q : list Operation.t) :
  Forall (fun op => state op = QUEUED) q ->
  filter (fun op => state op = SENT) q = [].
Proof.
  induction 1 as [|op q Hop _ IH]; [reflexivity|].
  rewrite filter_cons. destruct (decide (state op = SENT)) as [E|_]; [congruence|].
  exact IH.
Qed.

Lemma waiting_behind_head_sent q :
  waiting_behind_head q -> at_most_one_sent_at_head q.
Proof.
  unfold waiting_behind_head. destruct q as [|h t]; simpl; intros Ht.
  - split; [simpl; lia|]. intros i op Hi. rewrite lookup_nil in Hi. discriminate.
  - split.
    + rewrite filter_cons, (filter_sent_queued t Ht).
      destruct (decide (state h = SENT)); simpl; lia.
    + intros [|i] op Hi Hs; [reflexivity|]. simpl in Hi.
      rewrite Forall_lookup in Ht. specialize (Ht i op Hi). congruence.
Qed.

Lemma waiting_behind_head_tail h t :
  waiting_behind_head (h :: t) -> waiting_behind_head t.
Proof.
  unfold waiting_behind_head. simpl. destruct t as [|x t]; simpl; [constructor|].
  intros H. apply Forall_inv_tail in H. exact H.
Qed.

Lemma queue_command_keeps cmd data code now c :
  waiting_behind_head (_commandQueue c) ->
  waiting_behind_head (_commandQueue (queue_command cmd data code now c)).
Proof.
  unfold queue_command, waiting_behind_head. simpl.
  destruct (_commandQueue c) as [|h t]; simpl; [constructor|].
  intros H. apply Forall_app. split; [exact H|]. repeat constructor.
Qed.

Lemma command_succeeded_keeps cmd c :
  waiting_behind_head (_commandQueue c) ->
  waiting_behind_head (_commandQueue (command_succeeded cmd c)).
Proof.
  unfold command_succeeded. rewrite with_event_queue.
  destruct (_commandQueue c) as [|h t] eqn:E; [rewrite E; trivial|].
  destruct (truthy cmd && _); [rewrite E; trivial|]. exact id.
Qed.

Lemma command_failed_keeps retry now c :
  waiting_behind_head (_commandQueue c) ->
  waiting_behind_head (_commandQueue (command_failed retry now c)).
Proof.
  unfold command_failed. rewrite with_event_queue.
  destruct (_commandQueue c) as [|h t] eqn:E; [rewrite E; trivial|].
  destruct (negb (bool_decide _)); [rewrite E; trivial|].
  destruct (negb retry); [exact id|].
  destruct (Qle_bool _ _); exact id.
Qed.

(** One turn of the inner loop keeps the invariant. *)
Lemma scan_head_keeps now op rest c c' flow :
  waiting_behind_head (op :: rest) ->
  _commandQueue c = op :: rest ->
  scan_head now op rest c = (c', flow) ->
  waiting_behind_head (_commandQueue c').
Proof.
  intros Hinv Hq. unfold scan_head.
  destruct (state op); try destruct (Qle_bool _ _);
    intros [= <- <-]; simpl; rewrite ?Hq;
    eauto using waiting_behind_head_tail.
Qed.

Lemma scan_queue_keeps turns : forall now last c last' c',
  waiting_behind_head (_commandQueue c) ->
  scan_queue turns now last c = Some (last', c') ->
  waiting_behind_head (_commandQueue c').
Proof.
  induction turns as [|turns IH]; intros now last c last' c' Hinv; simpl; [discriminate|].
  destruct (_commandQueue c) as [|op rest] eqn:Hq.
  - intros [= <- <-]. rewrite Hq. exact Hinv.
  - destruct (scan_head now op rest c) as [c1 [|]] eqn:Hs.
    + apply IH. eapply scan_head_keeps; eauto.
    + intros [= <- <-]. eapply scan_head_keeps; eauto.
Qed.

Lemma queue_weight_bound q : (queue_weight q <= 3 * length q)%nat.
Proof.
  induction q as [|op q IH]; simpl; [lia|].
  destruct (state op); simpl; lia.
Qed.

Lemma scan_head_continue now op rest c c' :
  _commandQueue c = op :: rest ->
  scan_head now op rest c = (c', Continue) ->
  (queue_weight (_commandQueue c') < queue_weight (op :: rest))%nat.
Proof.
  intros Hq. unfold scan_head.
  destruct (state op) eqn:Hs; try destruct (Qle_bool _ _);
    intros [= <-]; simpl; rewrite ?Hs; simpl; lia.
Qed.

Lemma scan_queue_total turns : forall now last c,
  (queue_weight (_commandQueue c) < turns)%nat ->
  is_Some (scan_queue turns now last c).
Proof.
  induction turns as [|turns IH]; intros now last c Hw; [lia|]. simpl.
  destruct (_commandQueue c) as [|op rest] eqn:Hq; [eauto|].
  destruct (scan_head now op rest c) as [c1 [|]] eqn:Hs; [|eauto].
  apply IH. pose proof (scan_head_continue _ _ _ _ _ Hq Hs). lia.
Qed.

(** A pass of the processor always completes. *)
Lemma process_command_queue_total now c :
  is_Some (process_command_queue now c).
Proof.
  unfold process_command_queue.
  destruct (scan_queue_total (scan_turns c) now None c) as [[last c'] ->]; [|eauto].
  unfold scan_turns. pose proof (queue_weight_bound (_commandQueue c)). lia.
Qed.

Lemma process_command_queue_keeps now c timeout c' :
  waiting_behind_head (_commandQueue c) ->
  process_command_queue now c = Some (timeout, c') ->
  waiting_behind_head (_commandQueue c').
Proof.
  unfold process_command_queue. intros Hinv.
  destruct (scan_queue _ now None c) as [[last c1]|] eqn:Hs; [|discriminate].
  intros [= _ <-]. rewrite with_event_queue. eapply scan_queue_keeps; eauto.
Qed.

Lemma do_call_keeps k c :
  waiting_behind_head (_commandQueue c) ->
  exists c', do_call k c = Some c' /\ waiting_behind_head (_commandQueue c').
Proof.
  intros Hinv. destruct k as [cmd data code now|cmd|retry now|now]; simpl.
  - eauto using queue_command_keeps.
  - eauto using command_succeeded_keeps.
  - eauto using command_failed_keeps.
  - destruct (process_command_queue_total now c) as [[timeout c'] E].
    rewrite E. simpl. eauto using process_command_queue_keeps.
Qed.

Lemma run_keeps calls : forall c,
  waiting_behind_head (_commandQueue c) ->
  exists c', run calls c = Some c' /\ waiting_behind_head (_commandQueue c').
Proof.
  induction calls as [|k calls IH]; intros c Hinv; simpl; [eauto|].
  destruct (do_call_keeps k c Hinv) as (c1 & -> & H1). simpl. auto.
Qed.

(** C4. Whatever calls of [queue_command], [command_succeeded] and
    [command_failed] and whatever passes of the processor loop follow the
    creation of the client, in whatever order, the run goes through and
    leaves a queue in which at most one operation is SENT, and an operation
    that is SENT is the head. *)
Theorem sent_only_at_head (panel : AlarmPanel) (calls : list Call) :
  exists c, run calls (EnvisalinkClient_init panel) = Some c
            /\ at_most_one_sent_at_head (_commandQueue c).
Proof.
  destruct (run_keeps calls (EnvisalinkClient_init panel)) as (c & Hr & Hinv).
  - constructor.
  - eauto using waiting_behind_head_sent.
Qed.

(** *** Transmission *)

Lemma scan_head_transport now op rest c c' flow :
  scan_head now op rest c = (c', flow) -> _transport c' = _transport c.
Proof.
  unfold scan_head.
  destruct (state op); try destruct (Qle_bool _ _); intros [= <- <-]; reflexivity.
Qed.

Lemma scan_queue_transport turns : forall now last c last' c',
  scan_queue turns now last c = Some (last', c') -> _transport c' = _transport c.
Proof.
  induction turns as [|turns IH]; intros now last c last' c'; simpl; [discriminate|].
  destruct (_commandQueue c) as [|op rest]; [intros [= <- <-]; reflexivity|].
  destruct (scan_head now op rest c) as [c1 [|]] eqn:Hs.
  - intros H. rewrite (IH _ _ _ _ _ H). eapply scan_head_transport; eauto.
  - intros [= <- <-]. eapply scan_head_transport; eauto.
Qed.

(** A pass of the processor writes nothing to the transport, whatever the
    queue holds. *)
Lemma process_command_queue_writes_nothing now c timeout c' :
  process_command_queue now c = Some (timeout, c') ->
  _transport c' = _transport c.
Proof.
  unfold process_command_queue.
  destruct (scan_queue _ now None c) as [[last c1]|] eqn:Hs; [|discriminate].
  intros [= _ <-]. simpl. eapply scan_queue_transport; eauto.
Qed.

(** The turn on a QUEUED head marks it SENT and records its code. *)
Lemma scan_head_queued now op rest c :
  state op = QUEUED ->
  scan_head now op rest c
  = (with_cachedCode (code op) (with_queue (set_state SENT op :: rest) c), Continue).
Proof. intros H. unfold scan_head. rewrite H. reflexivity. Qed.


(** C3. After [queue_command("A", "1")] on a connected client, the pass of
    the processor finds the head QUEUED and marks it SENT, but no byte
    reaches the transport: [send_command] is called without being awaited.
    The frame the body of [send_command] builds is the one claimed, as
    running the dropped coroutine shows. *)
Theorem queued_command_marked_sent_not_written :
  let c := queue_command "A" "1" None 0%Q
             (connection_made (EnvisalinkClient_init sample_panel)) in
  (exists timeout c',
      process_command_queue 0%Q c = Some (timeout, c')
      /\ state <$> _commandQueue c' = [SENT]
      /\ _transport c' = Some [])
  /\ _transport (snd (run_coroutine (send_command "A" "1") c))
     = Some ["^A,1$" +:+ CRLF].
Proof.
  split; [|reflexivity].
  eexists _, _. split; [vm_compute; reflexivity|]. split; reflexivity.
Qed.

(** *** Failure of the command in flight *)

Lemma command_failed_no_retry c op rest now :
  _commandQueue c = op :: rest -> state op = SENT ->
  _commandQueue (command_failed false now c) = set_state FAILED op :: rest.
Proof.
  intros Hq Hs. unfold command_failed. rewrite Hq.
  rewrite bool_decide_eq_true_2 by exact Hs. reflexivity.
Qed.

Lemma command_failed_exhausted c op rest now :
  _commandQueue c = op :: rest -> state op = SENT ->
  (command_timeout (_alarmPanel c) <= retryDelay op * 2)%Q ->
  _commandQueue (command_failed true now c)
  = set_state FAILED (set_retryDelay (retryDelay op * 2)%Q op) :: rest.
Proof.
  intros Hq Hs Hd. unfold command_failed. rewrite Hq.
  rewrite bool_decide_eq_true_2 by exact Hs. simpl.
  apply Qle_bool_iff in Hd. rewrite Hd. reflexivity.
Qed.

Lemma command_failed_retry c op rest now :
  _commandQueue c = op :: rest -> state op = SENT ->
  (retryDelay op * 2 < command_timeout (_alarmPanel c))%Q ->
  _commandQueue (command_failed true now c)
  = set_expiryTime (now + retryDelay op * 2)%Q
      (set_state RETRY (set_retryDelay (retryDelay op * 2)%Q op)) :: rest.
Proof.
  intros Hq Hs Hd. unfold command_failed. rewrite Hq.
  rewrite bool_decide_eq_true_2 by exact Hs. simpl.
  destruct (Qle_bool _ _) eqn:E; [|reflexivity].
  apply Qle_bool_iff in E. apply Qlt_not_le in Hd. contradiction.
Qed.

Lemma command_failed_not_sent c retry now :
  (forall op, head (_commandQueue c) = Some op -> state op <> SENT) ->
  _commandQueue (command_failed retry now c) = _commandQueue c.
Proof.
  intros H. unfold command_failed. rewrite with_event_queue.
  destruct (_commandQueue c) as [|op rest] eqn:Hq; [exact Hq|].
  rewrite bool_decide_eq_false_2 by (apply H; reflexivity). exact Hq.
Qed.

(** What [command_failed] makes of a head in flight, field by field. *)
Lemma command_failed_in_flight c op rest retry now :
  _commandQueue c = op :: rest -> state op = SENT ->
  exists op',
    _commandQueue (command_failed retry now c) = op' :: rest
    /\ cmd op' = cmd op /\ data op' = data op /\ code op' = code op
    /\ (retry = false ->
        state op' = FAILED /\ retryDelay op' = retryDelay op
        /\ expiryTime op' = expiryTime op)
    /\ (retry = true ->
        retryDelay op' = (retryDelay op * 2)%Q
        /\ ((command_timeout (_alarmPanel c) <= retryDelay op * 2)%Q ->
            state op' = FAILED /\ expiryTime op' = expiryTime op)
        /\ ((retryDelay op * 2 < command_timeout (_alarmPanel c))%Q ->
            state op' = RETRY /\ expiryTime op' = (now + retryDelay op * 2)%Q)).
Proof.
  intros Hq Hs. destruct retry.
  - destruct (Qle_bool (command_timeout (_alarmPanel c)) (retryDelay op * 2)) eqn:E.
    + pose proof E as Hle. apply Qle_bool_iff in Hle.
      rewrite (command_failed_exhausted c op rest now Hq Hs Hle).
      eexists. split; [reflexivity|]. do 3 (split; [reflexivity|]).
      split; [discriminate|]. intros _. split; [reflexivity|]. split.
      * intros _. split; reflexivity.
      * intros Hlt. exfalso. apply Qlt_not_le in Hlt. contradiction.
    + assert (Hlt : (retryDelay op * 2 < command_timeout (_alarmPanel c))%Q).
      { apply Qnot_le_lt. intros Hle. apply Qle_bool_iff in Hle. congruence. }
      rewrite (command_failed_retry c op rest now Hq Hs Hlt).
      eexists. split; [reflexivity|]. do 3 (split; [reflexivity|]).
      split; [discriminate|]. intros _. split; [reflexivity|]. split.
      * intros Hle. exfalso. apply Qlt_not_le in Hlt. contradiction.
      * intros _. split; reflexivity.
  - rewrite (command_failed_no_retry c op rest now Hq Hs).
    eexists. split; [reflexivity|]. do 3 (split; [reflexivity|]).
    split; [|discriminate]. intros _. repeat split.
Qed.

(** **** The retry delay over whole runs *)

Lemma retried_once_weaken now op :
  retried_once_at_most op -> retried_once_by now op.
Proof. unfold retried_once_at_most, retried_once_by. tauto. Qed.

Lemma scan_bounded_of now q :
  Forall retried_once_at_most q -> scan_bounded now q.
Proof.
  destruct q as [|op rest]; [constructor|]. intros H.
  apply Forall_cons in H as [H1 H2]. split; [apply retried_once_weaken; exact H1|exact H2].
Qed.

(** A turn of the inner loop that goes on keeps the bound on the head of
    the pass; a turn that breaks leaves every operation retried once at
    most. *)
Lemma scan_head_bounded now op rest c c' flow :
  retried_once_by now op -> Forall retried_once_at_most rest ->
  scan_head now op rest c = (c', flow) ->
  match flow with
  | Continue => scan_bounded now (_commandQueue c')
  | Break => _commandQueue c = op :: rest ->
             Forall retried_once_at_most (_commandQueue c')
  end.
Proof.
  intros Hop Hrest. unfold scan_head. destruct (state op) eqn:Hs.
  - (* QUEUED *)
    intros [= <- <-]. split; [|exact Hrest].
    destruct Hop as [Hd|[Hd Hc]]; [left; exact Hd|right].
    split; [exact Hd|]. cbn [expiryTime set_state state].
    destruct Hc as [Hc|[Hc|[Hc|Hc]]]; try congruence. auto.
  - (* SENT *)
    destruct (Qle_bool (expiryTime op) now) eqn:E; intros [= <- <-]; intros Hq.
    + cbn [_commandQueue with_queue]. constructor; [|exact Hrest].
      destruct Hop as [Hd|[Hd _]]; [left; exact Hd|right]. cbn. auto.
    + rewrite Hq. constructor; [|exact Hrest].
      destruct Hop as [Hd|[Hd Hc]]; [left; exact Hd|].
      destruct Hc as [Hc|[Hc|[Hc|Hc]]]; congruence.
  - (* SUCCEEDED *)
    intros [= <- <-]. apply scan_bounded_of. exact Hrest.
  - (* RETRY *)
    destruct (Qle_bool (expiryTime op) now) eqn:E; intros [= <- <-].
    + split; [|exact Hrest].
      destruct Hop as [Hd|[Hd _]]; [left; exact Hd|right].
      split; [exact Hd|]. cbn [expiryTime set_state]. auto.
    + intros Hq. rewrite Hq. constructor; [|exact Hrest].
      destruct Hop as [Hd|[Hd Hc]]; [left; exact Hd|right].
      split; [exact Hd|]. left. exact Hs.
  - (* FAILED *)
    intros [= <- <-]. apply scan_bounded_of. exact Hrest.
Qed.

Lemma scan_queue_bounded turns : forall now last c last' c',
  scan_bounded now (_commandQueue c) ->
  scan_queue turns now last c = Some (last', c') ->
  Forall retried_once_at_most (_commandQueue c').
Proof.
  induction turns as [|turns IH]; intros now last c last' c' Hb; simpl; [discriminate|].
  destruct (_commandQueue c) as [|op rest] eqn:Hq.
  - intros [= <- <-]. rewrite Hq. constructor.
  - destruct Hb as [Hop Hrest].
    destruct (scan_head now op rest c) as [c1 flow] eqn:Hs.
    pose proof (scan_head_bounded now op rest c c1 flow Hop Hrest Hs) as H.
    destruct flow.
    + apply IH. exact H.
    + intros [= <- <-]. apply H. exact Hq.
Qed.

Lemma do_call_bounded k c :
  Forall retried_once_at_most (_commandQueue c) ->
  exists c', do_call k c = Some c'
             /\ Forall retried_once_at_most (_commandQueue c').
Proof.
  intros Hb. destruct k as [cmd data code now|cmd|retry now|now]; cbn [do_call].
  - eexists. split; [reflexivity|]. unfold queue_command.
    rewrite with_event_queue. cbn [_commandQueue with_queue].
    apply Forall_app. split; [exact Hb|]. repeat constructor.
  - eexists. split; [reflexivity|]. unfold command_succeeded. rewrite with_event_queue.
    destruct (_commandQueue c) as [|op rest] eqn:Hq; [rewrite Hq; constructor|].
    destruct (truthy cmd && _); [rewrite Hq; exact Hb|].
    apply Forall_cons in Hb as [Hop Hrest]. constructor; [|exact Hrest].
    destruct Hop as [Hd|[Hd _]]; [left; exact Hd|right]. cbn. auto.
  - eexists. split; [reflexivity|]. unfold command_failed. rewrite with_event_queue.
    destruct (_commandQueue c) as [|op rest] eqn:Hq; [rewrite Hq; constructor|].
    destruct (bool_decide (state op = SENT)) eqn:Hs; cbn [negb]; [|rewrite Hq; exact Hb].
    apply bool_decide_eq_true in Hs.
    apply Forall_cons in Hb as [Hop Hrest].
    assert (Hd : retryDelay op = (1 # 10)%Q).
    { destruct Hop as [Hd|[_ Hc]]; [exact Hd|]. destruct Hc as [Hc|[Hc|Hc]]; congruence. }
    destruct retry; cbn [negb].
    + cbn [retryDelay set_retryDelay]. rewrite Hd.
      destruct (Qle_bool _ _); (constructor; [|exact Hrest]); right; cbn; auto.
    + constructor; [|exact Hrest]. left. exact Hd.
  - destruct (process_command_queue_total now c) as [[timeout c'] E].
    rewrite E. cbn [fmap option_fmap option_map snd]. eexists. split; [reflexivity|].
    unfold process_command_queue in E.
    destruct (scan_queue _ now None c) as [[last c1]|] eqn:Hs; [|discriminate].
    injection E as _ <-. rewrite with_event_queue.
    eapply scan_queue_bounded; [|exact Hs]. apply scan_bounded_of. exact Hb.
Qed.

Lemma run_bounded calls : forall c,
  Forall retried_once_at_most (_commandQueue c) ->
  exists c', run calls c = Some c'
             /\ Forall retried_once_at_most (_commandQueue c').
Proof.
  induction calls as [|k calls IH]; intros c Hb; cbn [run]; [eauto|].
  destruct (do_call_bounded k c Hb) as (c1 & -> & H1). cbn [mbind option_bind]. auto.
Qed.

(** C5. The backoff of the claim does not come about.  In every run of
    calls and passes from a fresh client, the retry delay of every
    operation in the queue is 0.1 s or 0.2 s: it is doubled once at most.
    So it is in the run where a command is refused with a retry at time 1
    and again at time 3, with a timeout of 20 s.  The first refusal makes
    the head RETRY with delay 0.2 and expiry time 1.2, as claimed; the pass
    at time 2 sends it again and, its expiry time being still 1.2, fails it
    at once; the second refusal finds no head in flight and leaves it
    FAILED with delay 0.2, where the claim has it in RETRY with delay
    0.4. *)
Theorem backoff_ends_at_first_retry :
  (forall panel calls,
      exists c, run calls (EnvisalinkClient_init panel) = Some c
        /\ Forall (fun op => retryDelay op = (1 # 10)%Q \/ retryDelay op = (2 # 10)%Q)
                  (_commandQueue c))
  /\ (exists c,
        run (take 3 backoff_calls) (EnvisalinkClient_init sample_panel) = Some c
        /\ state <$> _commandQueue c = [RETRY]
        /\ retryDelay <$> _commandQueue c = [(2 # 10)%Q]
        /\ expiryTime <$> _commandQueue c = [(12 # 10)%Q])
  /\ (exists c,
        run (take 4 backoff_calls) (EnvisalinkClient_init sample_panel) = Some c
        /\ state <$> _commandQueue c = [FAILED])
  /\ (exists c,
        run backoff_calls (EnvisalinkClient_init sample_panel) = Some c
        /\ state <$> _commandQueue c = [FAILED]
        /\ retryDelay <$> _commandQueue c = [(2 # 10)%Q]).
Proof.
  split; [|split; [|split]].
  - intros panel calls.
    destruct (run_bounded calls (EnvisalinkClient_init panel)) as (c & Hr & Hb);
      [constructor|].
    exists c. split; [exact Hr|]. eapply Forall_impl; [exact Hb|].
    intros op [H|[H _]]; auto.
  - eexists. split; [vm_compute; reflexivity|]. repeat split.
  - eexists. split; [vm_compute; reflexivity|]. reflexivity.
  - eexists. split; [vm_compute; reflexivity|]. repeat split.
Qed.

(** *** Acknowledgement of the command in flight *)

Lemma truthy_unspecified cmd : unspecified cmd -> truthy cmd = false.
Proof. intros [-> | ->]; reflexivity. Qed.

(** C6. [command_succeeded(cmd)] on a queue that is not empty: the head
    becomes SUCCEEDED, its other fields as they were, when [cmd] is
    unspecified or is the head's command; when [cmd] is another command the
    head, whatever its state, and every operation behind it stay as they
    are.  On an empty queue nothing changes. *)
Theorem command_succeeded_cases :
  (forall c op rest cmd,
      _commandQueue c = op :: rest ->
      unspecified cmd \/ cmd = Some (Operation.cmd op) ->
      _commandQueue (command_succeeded cmd c) = set_state SUCCEEDED op :: rest
      /\ exists op',
           _commandQueue (command_succeeded cmd c) = op' :: rest
           /\ state op' = SUCCEEDED
           /\ Operation.cmd op' = Operation.cmd op /\ data op' = data op
           /\ code op' = code op /\ retryDelay op' = retryDelay op
           /\ expiryTime op' = expiryTime op)
  /\ (forall c op rest other,
      _commandQueue c = op :: rest ->
      other <> "" -> other <> Operation.cmd op ->
      _commandQueue (command_succeeded (Some other) c) = op :: rest
      /\ state <$> _commandQueue (command_succeeded (Some other) c)
         = state op :: (state <$> rest))
  /\ (forall c cmd,
      _commandQueue c = [] -> _commandQueue (command_succeeded cmd c) = []).
Proof.
  split; [|split].
  - intros c op rest cmd Hq H.
    assert (E : _commandQueue (command_succeeded cmd c) = set_state SUCCEEDED op :: rest).
    { unfold command_succeeded. rewrite Hq. destruct H as [H | ->].
      - rewrite (truthy_unspecified cmd H). reflexivity.
      - rewrite bool_decide_eq_true_2 by reflexivity.
        rewrite andb_false_r. reflexivity. }
    split; [exact E|]. exists (set_state SUCCEEDED op). split; [exact E|].
    repeat split.
  - intros c op rest other Hq Hne Hd.
    assert (E : _commandQueue (command_succeeded (Some other) c) = op :: rest).
    { unfold command_succeeded. rewrite Hq.
      assert (Ht : truthy (Some other) = true).
      { simpl. apply negb_true_iff, String.eqb_neq. exact Hne. }
      rewrite Ht, bool_decide_eq_false_2 by congruence. exact Hq. }
    split; [exact E|]. rewrite E. reflexivity.
  - intros c cmd Hq. unfold command_succeeded. rewrite Hq. exact Hq.
Qed.

Lemma command_succeeded_cases_witness :
  state <$> _commandQueue (command_succeeded (Some "A") sent_client) = [SUCCEEDED]
  /\ state <$> _commandQueue (command_succeeded None sent_client) = [SUCCEEDED]
  /\ state <$> _commandQueue (command_succeeded (Some "B") sent_client) = [SENT]
  /\ _commandQueue (command_succeeded (Some "B") sent_client) = [sent_op]
  /\ _commandQueue (command_succeeded (Some "A") sample_client) = [].
Proof.
  split; [|split; [|split; [|split]]].
  - destruct (proj1 command_succeeded_cases sent_client sent_op [] (Some "A"))
      as (_ & op' & Hq & Hs & _).
    + reflexivity.
    + right. reflexivity.
    + rewrite Hq. cbn [fmap list_fmap]. rewrite Hs. reflexivity.
  - destruct (proj1 command_succeeded_cases sent_client sent_op [] None)
      as (_ & op' & Hq & Hs & _).
    + reflexivity.
    + left. left. reflexivity.
    + rewrite Hq. cbn [fmap list_fmap]. rewrite Hs. reflexivity.
  - destruct (proj1 (proj2 command_succeeded_cases) sent_client sent_op [] "B")
      as (_ & Hs).
    + reflexivity.
    + discriminate.
    + discriminate.
    + exact Hs.
  - apply (proj1 (proj2 command_succeeded_cases) sent_client sent_op [] "B").
    + reflexivity.
    + discriminate.
    + discriminate.
  - apply (proj2 (proj2 command_succeeded_cases) sample_client (Some "A")). reflexivity.
Defined.

(** ** The inbound path *)

(** [parseHandler] returns a tuple on every path. *)
Lemma parseHandler_tuple defs line c :
  exists a b, parseHandler defs line c = PTuple a b.
Proof.
  unfold parseHandler.
  destruct (negb (_loggedin c)).
  - destruct (span _ line) as [code rest]. destruct (str_empty code); eauto.
  - destruct (str_empty _); [eauto|].
    destruct (str_filter _ line) as [|ch s]; [eauto|].
    destruct (negb (is_sentinel ch)); [eauto|].
    destruct (find "$" _) as [end_idx|]; [|eauto].
    destruct (find "," _); eauto.
Qed.

(** Subscripting that tuple with a [str] raises the [TypeError] both [try]
    blocks catch: no handler and no callback is looked up. *)
Lemma try_handler_tuple methods a b result c :
  try_handler methods (PTuple a b) result c = (Ok result, c).
Proof. reflexivity. Qed.

Lemma try_callback_tuple callbacks a b result c :
  try_callback callbacks (PTuple a b) result c = (Ok (), c).
Proof. reflexivity. Qed.

Lemma data_received_lines_records defs methods callbacks lines : forall result c,
  exists msgs,
    data_received_lines defs methods callbacks lines result c
    = (Ok (), record_messages msgs c).
Proof.
  induction lines as [|line lines IH]; intros result c; simpl.
  - exists []. reflexivity.
  - destruct (parseHandler_tuple defs line c) as (a & b & ->).
    rewrite try_handler_tuple, try_callback_tuple.
    destruct (message_of (PTuple a b)) as [[code data]|].
    + destruct (IH result (record (Parsed code data) c)) as (msgs & ->).
      exists ((code, data) :: msgs). reflexivity.
    + apply IH.
Qed.

Lemma record_messages_calls msgs : forall c,
  calls_made (record_messages msgs c) = calls_made c.
Proof.
  induction msgs as [|m msgs IH]; intros c; [reflexivity|].
  change (record_messages (m :: msgs) c)
    with (record_messages msgs (record (Parsed m.1 m.2) c)).
  rewrite IH. unfold calls_made. simpl.
  rewrite List.filter_app. simpl. apply app_nil_r.
Qed.

Lemma record_messages_rest msgs : forall c,
  let c' := record_messages msgs c in
  _alarmPanel c' = _alarmPanel c /\ _commandQueue c' = _commandQueue c
  /\ _loggedin c' = _loggedin c /\ _transport c' = _transport c.
Proof.
  induction msgs as [|m msgs IH]; intros c; [repeat split|].
  change (record_messages (m :: msgs) c)
    with (record_messages msgs (record (Parsed m.1 m.2) c)).
  exact (IH (record (Parsed m.1 m.2) c)).
Qed.

(** C2. Whatever the tables, the methods of the client and the callbacks of
    the host, [data_received] returns normally with no handler and no
    callback called, and with the alarm state, the queue and the login flag
    as they were: it subscripts the tuple [parseHandler] returned as if it
    were the [cmd] dict.  So it is on the line [%02,0100000000000005$],
    whose code has a dispatch entry and whose handler, called directly,
    does update the alarm state. *)
Theorem data_received_calls_no_handler :
  (forall defs methods callbacks data c,
      let r := data_received defs methods callbacks data c in
      fst r = Ok ()
      /\ calls_made (snd r) = calls_made c
      /\ _alarmPanel (snd r) = _alarmPanel c
      /\ _commandQueue (snd r) = _commandQueue c
      /\ _loggedin (snd r) = _loggedin c)
  /\ (let line := "%02,0100000000000005$" +:+ CRLF in
      let r := data_received sample_defs (sample_methods 0%Q) sample_callbacks
                 line sample_client in
      messages (snd r) = [("%02", "0100000000000005")]
      /\ evl_ResponseTypes sample_defs !! "%02" ≫= (.!! "handler")
         = Some "partition_state_change"
      /\ calls_made (snd r) = []
      /\ alarm_state (_alarmPanel (snd r)) = sample_alarm_state
      /\ alarm_state (_alarmPanel (snd
           (handle_partition_state_change sample_defs "%02" "0100000000000005"
              sample_client)))
         <> sample_alarm_state).
Proof.
  split.
  - intros defs methods callbacks data c. unfold data_received. simpl.
    destruct (decode_ascii data) as [decoded|]; [|repeat split].
    destruct (data_received_lines_records defs methods callbacks
                (split_crlf (strip decoded)) (PStr "") c) as (msgs & ->).
    simpl. split; [reflexivity|]. split; [apply record_messages_calls|].
    pose proof (record_messages_rest msgs c) as H. simpl in H. tauto.
  - simpl. split; [vm_compute; reflexivity|]. split; [vm_compute; reflexivity|].
    split; [vm_compute; reflexivity|]. split; [vm_compute; reflexivity|].
    intros H. apply (f_equal (fun a => toplevel a !! "arm")) in H.
    vm_compute in H. discriminate H.
Qed.

(** C1. The frame [%02,0100000000000005$] followed by CR LF, received
    whole by a client that has logged in, is extracted; received as
    [%02,0100] and then the rest, it is lost: the first call extracts
    nothing and keeps nothing, though [parseHandler] hands the unfinished
    frame back, and the second sees text that starts with no sentinel.
    Before the login the banner [Login:] received as [Log] and [in:] is
    taken for two messages. *)
Theorem frame_split_in_two_is_lost :
  let whole := "%02,0100000000000005$" +:+ CRLF in
  let first := "%02,0100" in
  let second := "000000000005$" +:+ CRLF in
  let rx := feed sample_defs (sample_methods 0%Q) sample_callbacks in
  let fresh := connection_made (EnvisalinkClient_init sample_panel) in
  whole = first +:+ second
  /\ messages (rx [whole] sample_client) = [("%02", "0100000000000005")]
  /\ messages (rx [first; second] sample_client) = []
  /\ parseHandler sample_defs first sample_client = PTuple PNone (PStr first)
  /\ rx [first] sample_client = sample_client
  /\ messages (rx ["Login:"] fresh) = [("Login:", "")]
  /\ messages (rx ["Log"; "in:"] fresh) = [("Log", ""); ("in:", "")].
Proof.
  simpl. split; [reflexivity|]. repeat split; vm_compute; reflexivity.
Qed.

(** *** The acknowledgement handler *)

Lemma handle_command_response_negative defs code data now c info :
  evl_TPI_Response_Codes defs !! data = Some info -> data <> "00" ->
  handle_command_response defs code data now c
  = match errorInfo defs with
    | None => (Raise NameError, c)
    | Some e => (Ok PNone, command_failed (retry e) now c)
    end.
Proof.
  intros Hi Hd. unfold handle_command_response. rewrite Hi.
  apply String.eqb_neq in Hd. rewrite Hd. reflexivity.
Qed.

(** C7. When no [errorInfo] is bound, a recognized response code other than
    ['00'] makes [handle_command_response] raise [NameError] before
    [command_failed] is called: the head keeps its state, whatever retry
    flag the table gives the code, and the exception is none of those the
    dispatcher catches. *)
Theorem negative_acknowledgement_raises defs code data now c info :
  errorInfo defs = None ->
  evl_TPI_Response_Codes defs !! data = Some info ->
  data <> "00" ->
  handle_command_response defs code data now c = (Raise NameError, c)
  /\ caught NameError = false.
Proof.
  intros He Hi Hd.
  rewrite (handle_command_response_negative defs code data now c info Hi Hd), He.
  split; reflexivity.
Qed.

Lemma negative_acknowledgement_raises_witness :
  handle_command_response sample_defs "^03" "01" 1%Q sent_client
  = (Raise NameError, sent_client)
  /\ caught NameError = false.
Proof.
  apply (negative_acknowledgement_raises sample_defs "^03" "01" 1%Q sent_client
           (mkResponseInfo true "Receive Buffer Overrun")).
  - reflexivity.
  - vm_compute. reflexivity.
  - discriminate.
Defined.

(** When the star import does bind [errorInfo], the retry flag passed to
    [command_failed] is that one entry's, the same for every code. *)
Lemma negative_acknowledgement_flag defs code data now c info e :
  errorInfo defs = Some e ->
  evl_TPI_Response_Codes defs !! data = Some info ->
  data <> "00" ->
  handle_command_response defs code data now c
  = (Ok PNone, command_failed (retry e) now c).
Proof.
  intros He Hi Hd.
  rewrite (handle_command_response_negative defs code data now c info Hi Hd), He.
  reflexivity.
Qed.

(** ** The zone-timer decoder *)

Lemma hex_char c :
  is_hex c = true ->
  digit_value c = hex_digit c
  /\ is_underscore c = false /\ is_int_space c = false /\ Ascii.eqb c LF = false
  /\ Ascii.eqb c "+" = false /\ Ascii.eqb c "-" = false
  /\ Ascii.eqb c "x" = false /\ Ascii.eqb c "X" = false
  /\ exists d, hex_digit c = Some d /\ 0 <= d < 16.
Proof.
  destruct c as [[] [] [] [] [] [] [] []]; intros H; vm_compute in H;
    try discriminate H; clear H;
    (repeat (split; [vm_compute; reflexivity|]));
    eexists; (split; [vm_compute; reflexivity|lia]).
Qed.

Lemma hex_value_from_bound s : forall acc n,
  str_forall is_hex s = true ->
  0 <= acc < 16 ^ n -> 0 <= n ->
  0 <= hex_value_from acc s < 16 ^ (n + Z.of_nat (String.length s)).
Proof.
  induction s as [|c t IH]; intros acc n Hs Hacc Hn; simpl.
  - rewrite Z.add_0_r. exact Hacc.
  - simpl in Hs. apply andb_true_iff in Hs as [Hc Ht].
    destruct (hex_char c Hc) as (_ & _ & _ & _ & _ & _ & _ & _ & d & -> & Hd). simpl.
    replace (n + Z.of_nat (S (String.length t)))
      with ((n + 1) + Z.of_nat (String.length t)) by lia.
    apply IH; [exact Ht| |lia].
    rewrite Z.pow_add_r by lia. change (16 ^ 1) with 16. nia.
Qed.

(** On hex digits the digit loop of [int()] reads the whole string. *)
Lemma int_digits_hex s : forall prev acc,
  str_forall is_hex s = true ->
  match prev with
  | None => s <> ""
  | Some p => is_underscore p = false
  end ->
  int_digits 16 prev acc s = Some (hex_value_from acc s, "").
Proof.
  induction s as [|c t IH]; intros prev acc Hs Hp.
  - destruct prev as [p|]; [|congruence]. simpl. rewrite Hp. reflexivity.
  - simpl in Hs. apply andb_true_iff in Hs as [Hc Ht].
    destruct (hex_char c Hc) as (Hdv & Hu & _ & _ & _ & _ & _ & _ & d & Hd & Hr).
    cbn [int_digits]. rewrite Hu, Hdv, Hd.
    replace (d <? 16) with true by (symmetry; apply Z.ltb_lt; lia).
    cbn [hex_value_from]. rewrite Hd. simpl default.
    apply IH; [exact Ht|exact Hu].
Qed.

Lemma py_int_hex s :
  s <> "" -> str_forall is_hex s = true -> py_int 16 s = Ok (hex_value s).
Proof.
  intros Hne Hs. destruct s as [|c t]; [congruence|].
  pose proof Hs as Hs'. simpl in Hs'. apply andb_true_iff in Hs' as [Hc Ht].
  destruct (hex_char c Hc) as (_ & _ & Hsp & _ & Hplus & Hminus & _ & _ & _).
  unfold py_int. cbn [int_lstrip]. rewrite Hsp. cbn [split_sign]. rewrite Hplus, Hminus.
  assert (Hpre : skip_prefix 16 (String c t) = String c t).
  { destruct t as [|x t']; [reflexivity|]. cbn [skip_prefix].
    simpl in Ht. apply andb_true_iff in Ht as [Hx _].
    destruct (hex_char x Hx) as (_ & _ & _ & _ & _ & _ & Hx1 & Hx2 & _).
    rewrite Hx1, Hx2, andb_false_r. reflexivity. }
  rewrite Hpre, (int_digits_hex (String c t) None 0 Hs) by discriminate.
  cbn [str_forall]. unfold hex_value. f_equal. apply Z.mul_1_l.
Qed.

(** A string of hex digits holds no line feed, so [re.findall] cuts it into
    its consecutive words of four. *)
Lemma findall4_hex n : forall s,
  (String.length s <= n)%nat -> str_forall is_hex s = true ->
  findall4 s = words4 s.
Proof.
  induction n as [|n IH]; intros s Hn Hs.
  - destruct s; [reflexivity|simpl in Hn; lia].
  - destruct s as [|a [|b [|c [|d rest]]]]; try reflexivity.
    simpl in Hs. repeat (apply andb_true_iff in Hs as [?H Hs]).
    cbn [findall4 words4].
    destruct (hex_char a H) as (_ & _ & _ & -> & _).
    destruct (hex_char b H0) as (_ & _ & _ & -> & _).
    destruct (hex_char c H1) as (_ & _ & _ & -> & _).
    destruct (hex_char d H2) as (_ & _ & _ & -> & _).
    simpl. f_equal. apply IH; [simpl in Hn; lia|exact Hs].
Qed.

Lemma words4_hex n : forall s,
  (String.length s <= n)%nat -> str_forall is_hex s = true ->
  Forall (fun w => String.length w = 4%nat /\ str_forall is_hex w = true) (words4 s).
Proof.
  induction n as [|n IH]; intros s Hn Hs.
  - destruct s; [constructor|simpl in Hn; lia].
  - destruct s as [|a [|b [|c [|d rest]]]]; try constructor.
    + simpl in Hs. repeat (apply andb_true_iff in Hs as [?H Hs]).
      split; [reflexivity|]. simpl. rewrite H, H0, H1, H2. reflexivity.
    + simpl in Hs. repeat (apply andb_true_iff in Hs as [?H Hs]).
      apply IH; [simpl in Hn; lia|exact Hs].
Qed.

(** What the loop makes of one word of four hex digits. *)
Lemma word_decoded w :
  String.length w = 4%nat -> str_forall is_hex w = true ->
  py_int 16 (join "" [slice 2 4 w; slice 0 2 w]) = Ok (hex_value (swap_halves w))
  /\ 0 <= hex_value (swap_halves w) < 65536.
Proof.
  intros Hl Hs.
  destruct w as [|a [|b [|c [|d [|e rest]]]]]; try discriminate Hl. clear Hl.
  simpl in Hs. repeat (apply andb_true_iff in Hs as [?H Hs]).
  assert (Hsw : str_forall is_hex (String c (String d (String a (String b "")))) = true).
  { simpl. rewrite H, H0, H1, H2. reflexivity. }
  split.
  - change (join "" _) with (String c (String d (String a (String b "")))).
    apply py_int_hex; [discriminate|exact Hsw].
  - cbn [swap_halves].
    pose proof (hex_value_from_bound _ 0 0 Hsw) as Hb. simpl in Hb.
    apply Hb; lia.
Qed.

Lemma convertZoneDump_items_decoded ws : forall zoneNumber,
  Forall (fun w => String.length w = 4%nat /\ str_forall is_hex w = true) ws ->
  exists items,
    convertZoneDump_items zoneNumber ws = Ok items
    /\ length items = length ws
    /\ forall i w, ws !! i = Some w ->
         exists z, items !! i = Some z
           /\ zone z = zoneNumber + Z.of_nat i
           /\ seconds z = (65536 - hex_value (swap_halves w)) * 5
           /\ (status z = "open" <-> seconds z < 30)
           /\ (status z = "closed" <-> 30 <= seconds z).
Proof.
  induction ws as [|w ws IH]; intros zoneNumber Hws.
  - exists []. split; [reflexivity|]. split; [reflexivity|].
    intros i w Hi. rewrite lookup_nil in Hi. discriminate.
  - apply Forall_cons in Hws as [[Hl Hh] Hws].
    destruct (IH (zoneNumber + 1) Hws) as (items & Hitems & Hlen & Hall).
    destruct (word_decoded w Hl Hh) as [Hint _].
    cbn [convertZoneDump_items]. rewrite Hint. cbn [mbind Result_bind bindR].
    rewrite Hitems. cbn [mbind Result_bind bindR].
    eexists. split; [reflexivity|]. split; [simpl; rewrite Hlen; reflexivity|].
    intros [|i] w' Hi.
    + injection Hi as <-. eexists. split; [reflexivity|]. simpl.
      split; [lia|]. split; [reflexivity|].
      destruct ((65536 - hex_value (swap_halves w)) * 5 <? 30) eqn:E.
      * apply Z.ltb_lt in E. split; split; intros; try lia; try discriminate; reflexivity.
      * apply Z.ltb_ge in E. split; split; intros; try lia; try discriminate; reflexivity.
    + simpl in Hi. destruct (Hall i w' Hi) as (z & Hz & Hzone & Hrest).
      exists z. split; [exact Hz|]. split; [lia|exact Hrest].
Qed.

(** C8. On a string of hex digits [convertZoneDump] returns one entry per
    consecutive word of four digits, numbered from 1; the entry of a word
    has [seconds = (65536 - v) * 5] for the unsigned 16-bit value [v] that
    the word with its halves swapped writes, and [status] 'open' exactly
    when [seconds < 30], 'closed' otherwise.  A word that swaps to [FFFF]
    gives 5 seconds and 'open', one that swaps to [0000] gives 327680
    seconds and 'closed'. *)
Theorem convertZoneDump_decodes :
  (forall theString,
      str_forall is_hex theString = true ->
      exists items,
        convertZoneDump theString = Ok items
        /\ length items = length (words4 theString)
        /\ forall i w, words4 theString !! i = Some w ->
             exists z, items !! i = Some z
               /\ zone z = Z.of_nat i + 1
               /\ 0 <= hex_value (swap_halves w) < 65536
               /\ seconds z = (65536 - hex_value (swap_halves w)) * 5
               /\ (status z = "open" <-> seconds z < 30)
               /\ (status z = "closed" <-> 30 <= seconds z))
  /\ (forall w, String.length w = 4%nat -> swap_halves w = "FFFF" ->
        convertZoneDump w = Ok [{| zone := 1; status := "open"; seconds := 5 |}])
  /\ (forall w, String.length w = 4%nat -> swap_halves w = "0000" ->
        convertZoneDump w = Ok [{| zone := 1; status := "closed"; seconds := 327680 |}]).
Proof.
  split; [|split].
  - intros s Hs. unfold convertZoneDump.
    rewrite (findall4_hex (String.length s) s (le_n _) Hs).
    pose proof (words4_hex (String.length s) s (le_n _) Hs) as Hws.
    destruct (convertZoneDump_items_decoded (words4 s) 1 Hws) as (items & Hi & Hl & Hall).
    exists items. split; [exact Hi|]. split; [exact Hl|].
    intros i w Hw. destruct (Hall i w Hw) as (z & Hz & Hzone & Hsec & Hst).
    exists z. split; [exact Hz|]. split; [lia|].
    rewrite Forall_lookup in Hws. destruct (Hws i w Hw) as [Hlen Hhex].
    split; [exact (proj2 (word_decoded w Hlen Hhex))|]. split; [exact Hsec|exact Hst].
  - intros w Hl Hw.
    destruct w as [|a [|b [|c [|d [|e rest]]]]]; try discriminate Hl.
    cbn [swap_halves] in Hw. injection Hw as -> -> -> ->. vm_compute. reflexivity.
  - intros w Hl Hw.
    destruct w as [|a [|b [|c [|d [|e rest]]]]]; try discriminate Hl.
    cbn [swap_halves] in Hw. injection Hw as -> -> -> ->. vm_compute. reflexivity.
Qed.

Lemma convertZoneDump_decodes_witness :
  (exists items, convertZoneDump "0A00FFFF" = Ok items /\ length items = 2%nat)
  /\ convertZoneDump "FFFF"
     = Ok [{| zone := 1; status := "open"; seconds := 5 |}]
  /\ convertZoneDump "0000"
     = Ok [{| zone := 1; status := "closed"; seconds := 327680 |}].
Proof.
  split; [|split].
  - destruct (proj1 convertZoneDump_decodes "0A00FFFF") as (items & Hi & Hl & _).
    + vm_compute. reflexivity.
    + exists items. split; [exact Hi|exact Hl].
  - apply (proj1 (proj2 convertZoneDump_decodes) "FFFF"); reflexivity.
  - apply (proj2 (proj2 convertZoneDump_decodes) "0000"); reflexivity.
Defined.

(** ** The keypad handler *)

(** C9 as it is worded does not hold.  The payload is turned away only for
    a [%]: with a [^] and no [%] the partition status is updated like for
    any other payload. *)
Lemma keypad_update_caret_accepted :
  ~ keypad_update_rejects_sentinels.
Proof.
  intros H.
  specialize (H sample_defs "%00" "01,1C08,08,00,DISARMED^ Ready" 0%Q sample_client
                eq_refl).
  apply (f_equal (fun a => partition a !! 1 ≫= (.!! "alpha"))) in H.
  vm_compute in H. discriminate H.
Qed.

(** C9, amended. A keypad payload that holds a [%] is turned away:
    [handle_keypad_update] returns at once and the client, alarm state
    included, is as it was. *)
Theorem keypad_update_rejects_percent defs code data now c :
  contains "%" data = true ->
  handle_keypad_update defs code data now c = (Ok PNone, c).
Proof. intros H. unfold handle_keypad_update. rewrite H. reflexivity. Qed.

Lemma keypad_update_rejects_percent_witness :
  handle_keypad_update sample_defs "%00" "01,1C08,08,00,DISARMED% Ready" 0%Q sample_client
  = (Ok PNone, sample_client).
Proof.
  apply (keypad_update_rejects_percent sample_defs "%00"
           "01,1C08,08,00,DISARMED% Ready" 0%Q sample_client).
  reflexivity.
Defined.

(** ** The partition handler *)

(** A turn of the loop on a known status code and a partition the alarm
    state has: it goes through, writes the three top-level keys from this
    partition's state, and stores the partition's [armed]. *)
Lemma partition_state_step_ok defs data i a st :
  evl_Partition_Status_Codes defs !! slice (i * 2) (i * 2 + 2) data = Some st ->
  is_Some (partition a !! (Z.of_nat i + 1)) ->
  exists a',
    partition_state_step defs data i a = (Ok (), a')
    /\ toplevel a' = write_arm_keys st (toplevel a)
    /\ (forall n, is_Some (partition a' !! n) <-> is_Some (partition a !! n))
    /\ partition a' !! (Z.of_nat i + 1) ≫= (.!! "armed")
       = Some (PBool (is_armed_name (name st))).
Proof.
  intros Hst [status Hp]. unfold partition_state_step. rewrite Hst, Hp.
  eexists. split; [reflexivity|]. split; [reflexivity|]. split.
  - intros n. cbn [partition].
    destruct (decide (Z.of_nat i + 1 = n)) as [<-|Hne].
    + rewrite lookup_insert_eq, Hp. split; eauto.
    + rewrite lookup_insert_ne by exact Hne. reflexivity.
  - cbn [partition]. rewrite lookup_insert_eq. cbn [mbind option_bind].
    destruct (String.eqb (name st) "NOT_READY").
    + rewrite lookup_insert_ne by discriminate.
      rewrite lookup_insert_ne by discriminate.
      apply lookup_insert_eq.
    + rewrite lookup_insert_ne by discriminate.
      apply lookup_insert_eq.
Qed.

Lemma partition_state_loop_ok defs data (st : nat -> PartitionStatus) indices :
  forall a,
  (forall i, i ∈ indices ->
     evl_Partition_Status_Codes defs !! slice (i * 2) (i * 2 + 2) data = Some (st i)
     /\ is_Some (partition a !! (Z.of_nat i + 1))) ->
  exists a',
    partition_state_loop defs data indices a = (Ok (), a')
    /\ toplevel a' = foldl (fun top i => write_arm_keys (st i) top) (toplevel a) indices
    /\ (forall n, is_Some (partition a' !! n) <-> is_Some (partition a !! n)).
Proof.
  induction indices as [|i indices IH]; intros a Hall.
  - exists a. repeat split; auto.
  - destruct (Hall i) as [Hst Hp]; [left|].
    destruct (partition_state_step_ok defs data i a (st i) Hst Hp)
      as (a1 & Hstep & Htop & Hdom & _).
    destruct (IH a1) as (a' & Hloop & Htop' & Hdom').
    { intros j Hj. destruct (Hall j) as [Hj1 Hj2]; [right; exact Hj|].
      split; [exact Hj1|]. apply Hdom. exact Hj2. }
    exists a'. cbn [partition_state_loop]. rewrite Hstep.
    split; [exact Hloop|]. split.
    + cbn [foldl]. rewrite <- Htop. exact Htop'.
    + intros n. rewrite Hdom'. apply Hdom.
Qed.

Lemma partition_state_loop_app defs data l1 l2 a :
  partition_state_loop defs data (l1 ++ l2) a
  = match partition_state_loop defs data l1 a with
    | (Ok _, a1) => partition_state_loop defs data l2 a1
    | (Raise e, a1) => (Raise e, a1)
    end.
Proof.
  revert a. induction l1 as [|i l1 IH]; intros a; [reflexivity|].
  simpl. destruct (partition_state_step defs data i a) as [[[]|e] a1]; [apply IH|reflexivity].
Qed.

(** A turn that meets a status code the table does not have stops the
    loop: the top-level keys stay as the partition before left them. *)
Lemma partition_state_step_unknown defs data i a :
  evl_Partition_Status_Codes defs !! slice (i * 2) (i * 2 + 2) data = None ->
  partition_state_step defs data i a = (Raise KeyError, a).
Proof. intros H. unfold partition_state_step. rewrite H. reflexivity. Qed.

(** C10 as it is worded does not hold.  On the sixteen characters
    [05XX010101010101] the code of partition 2 is not in the table: the
    call stops there with a [KeyError], and the three keys stay as
    partition 1, armed away, wrote them, not as the state of partition 8,
    READY, would set them. *)
Lemma arm_keys_stale_after_unknown_code :
  ~ arm_keys_follow_partition_8.
Proof.
  intros H.
  destruct (H sample_defs "%02" "05XX010101010101" sample_client
              (mkPartitionStatus "READY") eq_refl) as (_ & Hdisarm & _).
  - vm_compute. reflexivity.
  - vm_compute in Hdisarm. discriminate Hdisarm.
Qed.

(** C10, amended. A call of [handle_partition_state_change] whose eight status
    codes are in the table, on an alarm state that has partitions 1 to 8,
    returns, having written the three top-level keys once per partition in
    ascending order; so 'arm', 'disarm' and 'cancel' are as the state of
    partition 8 sets them: 'disarm' is what partition 8's [armed] now is,
    'arm' its negation, 'cancel' whether partition 8 is in
    EXIT_ENTRY_DELAY.  The states of partitions 1 to 7 do not enter. *)
Theorem partition_state_change_arm_keys defs code data c (st : nat -> PartitionStatus) :
  (forall i, (i < 8)%nat ->
     evl_Partition_Status_Codes defs !! slice (i * 2) (i * 2 + 2) data = Some (st i)) ->
  (forall i, (i < 8)%nat ->
     is_Some (partition (alarm_state (_alarmPanel c)) !! (Z.of_nat i + 1))) ->
  exists c',
    handle_partition_state_change defs code data c = (Ok PNone, c')
    /\ toplevel (alarm_state (_alarmPanel c'))
       = foldl (fun top i => write_arm_keys (st i) top)
           (toplevel (alarm_state (_alarmPanel c))) (seq 0 8)
    /\ partition (alarm_state (_alarmPanel c')) !! 8 ≫= (.!! "armed")
       = Some (PBool (is_armed_name (name (st 7%nat))))
    /\ toplevel (alarm_state (_alarmPanel c')) !! "arm"
       = Some (PBool (negb (is_armed_name (name (st 7%nat)))))
    /\ toplevel (alarm_state (_alarmPanel c')) !! "disarm"
       = Some (PBool (is_armed_name (name (st 7%nat))))
    /\ toplevel (alarm_state (_alarmPanel c')) !! "cancel"
       = Some (PBool (String.eqb (name (st 7%nat)) "EXIT_ENTRY_DELAY")).
Proof.
  intros Hst Hp. unfold handle_partition_state_change.
  change (seq 0 8) with (seq 0 7 ++ [7%nat])%list.
  rewrite partition_state_loop_app.
  destruct (partition_state_loop_ok defs data st (seq 0 7)
              (alarm_state (_alarmPanel c))) as (a1 & Hloop & Htop & Hdom).
  { intros i Hi. apply elem_of_seq in Hi. split; [apply Hst|apply Hp]; lia. }
  rewrite Hloop. cbn [partition_state_loop].
  destruct (partition_state_step_ok defs data 7 a1 (st 7%nat)) as (a' & Hstep & Htop' & _ & Harmed).
  { apply Hst. lia. }
  { apply Hdom, Hp. lia. }
  rewrite Hstep. eexists. split; [reflexivity|].
  cbn [with_alarm_state _alarmPanel alarm_state].
  rewrite Htop', foldl_app, <- Htop. cbn [foldl].
  split; [reflexivity|]. split; [exact Harmed|].
  unfold write_arm_keys. split; [|split].
  - rewrite lookup_insert_ne by discriminate.
    rewrite lookup_insert_ne by discriminate. apply lookup_insert_eq.
  - rewrite lookup_insert_ne by discriminate. apply lookup_insert_eq.
  - apply lookup_insert_eq.
Qed.

Lemma partition_state_change_arm_keys_witness :
  exists c',
    handle_partition_state_change sample_defs "%02" "0101010101010105" sample_client
    = (Ok PNone, c')
    /\ toplevel (alarm_state (_alarmPanel c')) !! "arm" = Some (PBool false)
    /\ toplevel (alarm_state (_alarmPanel c')) !! "disarm" = Some (PBool true)
    /\ toplevel (alarm_state (_alarmPanel c')) !! "cancel" = Some (PBool false).
Proof.
  destruct (partition_state_change_arm_keys sample_defs "%02" "0101010101010105"
              sample_client sample_states) as (c' & Hc & _ & _ & Harm & Hdisarm & Hcancel).
  - intros i Hi.
    do 8 (destruct i as [|i]; [vm_compute; reflexivity|]). lia.
  - intros i Hi.
    do 8 (destruct i as [|i]; [vm_compute; eauto|]). lia.
  - exists c'. split; [exact Hc|]. split; [exact Harm|]. split; [exact Hdisarm|exact Hcancel].
Defined.

(** With partition 1 armed and a code for partition 2 that the table does
    not have, the call raises at partition 2 and the keys are those
    partition 1 wrote. *)
Lemma partition_state_change_unknown_code :
  let r := handle_partition_state_change sample_defs "%02" "05XX010101010101"
             sample_client in
  fst r = Raise KeyError
  /\ toplevel (alarm_state (_alarmPanel (snd r))) !! "disarm" = Some (PBool true).
Proof. split; vm_compute; reflexivity. Qed.

(** ** Retry and the processor *)

(** A pass that finds the head in RETRY with its delay over puts it back
    to QUEUED, marks it SENT and, the expiry time being the one the retry
    was given, fails it in the same pass. *)
Lemma retried_command_fails_in_same_pass :
  let c := command_failed true 1%Q sent_client in
  state <$> _commandQueue c = [RETRY]
  /\ exists timeout c',
       process_command_queue 2%Q c = Some (timeout, c')
       /\ state <$> _commandQueue c' = [FAILED].
Proof.
  split; [reflexivity|]. eexists _, _. split; [vm_compute; reflexivity|reflexivity].
Qed.

(** * Further properties of the client *)

(** ** Strings *)

Lemma str_app_cons x a b : String x a +:+ b = String x (a +:+ b).
Proof. reflexivity. Qed.

Lemma find_none_forall c s :
  find c s = None <-> str_forall (fun x => negb (Ascii.eqb x c)) s = true.
Proof.
  induction s as [|x t IH]; simpl; [tauto|].
  destruct (Ascii.eqb x c); simpl; [split; discriminate|].
  rewrite <- IH. destruct (find c t); simpl; split; congruence.
Qed.

Lemma contains_false_find c s : contains c s = false <-> find c s = None.
Proof. unfold contains. destruct (find c s); split; congruence. Qed.

Lemma find_app_at c a b :
  find c a = None -> find c (a +:+ String c b) = Some (String.length a).
Proof.
  induction a as [|x t IH]; simpl.
  - intros _. rewrite Ascii.eqb_refl. reflexivity.
  - destruct (Ascii.eqb x c); [discriminate|].
    destruct (find c t) eqn:E; [discriminate|]. intros _.
    rewrite IH by reflexivity. reflexivity.
Qed.

Lemma find_app_none c a b :
  find c a = None -> find c (a +:+ b) = (fun n => (String.length a + n)%nat) <$> find c b.
Proof.
  induction a as [|x t IH]; simpl.
  - intros _. change ("" +:+ b) with b. destruct (find c b); reflexivity.
  - destruct (Ascii.eqb x c); [discriminate|].
    destruct (find c t) eqn:E; [discriminate|]. intros _.
    rewrite IH by reflexivity. destruct (find c b); reflexivity.
Qed.

Lemma find_some_split c s n :
  find c s = Some n ->
  s = str_take n s +:+ String c (str_drop (n + 1) s)
  /\ find c (str_take n s) = None.
Proof.
  revert n. induction s as [|x t IH]; intros n; simpl; [discriminate|].
  destruct (Ascii.eqb x c) eqn:E.
  - intros [= <-]. apply Ascii.eqb_eq in E. subst x. split; reflexivity.
  - destruct (find c t) as [m|] eqn:F; [|discriminate]. intros [= <-].
    destruct (IH m eq_refl) as [H1 H2]. split.
    + simpl. rewrite str_app_cons. f_equal. exact H1.
    + simpl. rewrite E, H2. reflexivity.
Qed.

Lemma str_take_app a b : str_take (String.length a) (a +:+ b) = a.
Proof.
  induction a as [|x t IH]; [reflexivity|].
  rewrite str_app_cons. simpl. f_equal. exact IH.
Qed.

Lemma str_drop_app a b : str_drop (String.length a) (a +:+ b) = b.
Proof. induction a as [|x t IH]; [reflexivity|]. rewrite str_app_cons. exact IH. Qed.

Lemma str_take_drop n s : str_take n s +:+ str_drop n s = s.
Proof.
  revert s. induction n as [|n IH]; intros s; [reflexivity|].
  destruct s as [|x t]; [reflexivity|]. simpl. rewrite str_app_cons. f_equal. apply IH.
Qed.

Lemma str_filter_id p s : str_forall p s = true -> str_filter p s = s.
Proof.
  induction s as [|x t IH]; simpl; [reflexivity|].
  intros H. apply andb_true_iff in H as [Hx Ht]. rewrite Hx, IH by exact Ht. reflexivity.
Qed.

Lemma str_filter_forall p s : str_forall p (str_filter p s) = true.
Proof.
  induction s as [|x t IH]; simpl; [reflexivity|].
  destruct (p x) eqn:E; simpl; [rewrite E|]; exact IH.
Qed.

Lemma str_forall_app p a b :
  str_forall p (a +:+ b) = str_forall p a && str_forall p b.
Proof.
  induction a as [|x t IH]; [reflexivity|].
  rewrite str_app_cons. simpl. rewrite IH. apply andb_assoc.
Qed.

Lemma str_app_assoc a b c : (a +:+ b) +:+ c = a +:+ (b +:+ c).
Proof.
  induction a as [|x t IH]; [reflexivity|].
  rewrite !str_app_cons. f_equal. exact IH.
Qed.


Lemma str_length_app a b :
  String.length (a +:+ b) = (String.length a + String.length b)%nat.
Proof.
  induction a as [|x t IH]; [reflexivity|].
  rewrite str_app_cons. simpl. f_equal. exact IH.
Qed.

Lemma span_spec p s :
  let '(a, b) := span p s in
  a +:+ b = s /\ str_forall p a = true
  /\ match b with String x _ => p x = false | EmptyString => True end.
Proof.
  induction s as [|x t IH]; simpl; [auto|].
  destruct (p x) eqn:E.
  - destruct (span p t) as [a b]. destruct IH as (H1 & H2 & H3).
    rewrite str_app_cons. simpl. rewrite E, H2, H1. auto.
  - simpl. auto.
Qed.

(** ** The framer *)

Lemma dead_rest_test rest :
  negb (str_empty rest) && (String.length rest =? 0)%nat = false.
Proof. destruct rest; reflexivity. Qed.

Lemma add_dispatch_keeps defs code cmd k :
  k <> "handler" -> k <> "callback" ->
  add_dispatch defs code cmd !! k = cmd !! k.
Proof.
  intros H1 H2. unfold add_dispatch.
  destruct (evl_ResponseTypes defs !! code ≫= _); [|reflexivity].
  rewrite !lookup_insert_ne by congruence. reflexivity.
Qed.

Lemma message_of_cmd defs code data r :
  message_of (PTuple (PDict (add_dispatch defs code
                (<["data" := data]> (<["code" := code]> ∅)))) r)
  = Some (code, data).
Proof.
  unfold message_of.
  rewrite (add_dispatch_keeps defs code _ "code") by discriminate.
  rewrite (add_dispatch_keeps defs code _ "data") by discriminate.
  rewrite (lookup_insert_ne _ "data" "code") by discriminate.
  rewrite !lookup_insert_eq. reflexivity.
Qed.

Lemma slice_0 n s : slice 0 n s = str_take n s.
Proof. unfold slice. rewrite Nat.sub_0_r. reflexivity. Qed.

(** What [parseHandler] makes, after the login, of a line without line
    breaks that starts with a sentinel and has its first [$] at [n]. *)
Lemma parseHandler_framed defs c ch body n :
  _loggedin c = true -> is_sentinel ch = true ->
  no_linebreak (String ch body) = true ->
  find "$" (String ch body) = Some n ->
  let P := str_take n (String ch body) in
  let cd := match find "," P with
            | None => (P, "")
            | Some i => (str_take i P, str_drop (i + 1) P)
            end in
  parseHandler defs (String ch body) c
  = PTuple (PDict (add_dispatch defs cd.1
                     (<["data" := cd.2]> (<["code" := cd.1]> ∅))))
           (PStr (str_drop (n + 1) (String ch body))).
Proof.
  intros Hl Hs Hlb Hf. unfold parseHandler. rewrite Hl. cbn [negb].
  unfold no_linebreak in Hlb. rewrite (str_filter_id _ _ Hlb).
  cbn [str_empty String.eqb]. rewrite Hs. cbn [negb Nat.eqb].
  rewrite Hf, slice_0.
  destruct (find "," (str_take n (String ch body))) as [i|];
    cbn [fst snd]; rewrite ?slice_0, dead_rest_test; reflexivity.
Qed.

Lemma sentinel_plain ch :
  is_sentinel ch = true ->
  Ascii.eqb ch "$" = false /\ Ascii.eqb ch "," = false /\ is_linebreak ch = false.
Proof.
  unfold is_sentinel. intros H. apply orb_true_iff in H as [H|H];
    apply Ascii.eqb_eq in H; subst ch; repeat split.
Qed.

(** After the login the line breaks of a line do not count. *)
Lemma parseHandler_linebreaks defs c line :
  _loggedin c = true ->
  parseHandler defs line c
  = parseHandler defs (str_filter (fun ch => negb (is_linebreak ch)) line) c.
Proof.
  intros Hl. unfold parseHandler. rewrite Hl. cbn [negb].
  rewrite (str_filter_id _ (str_filter _ line)) by apply str_filter_forall.
  reflexivity.
Qed.

(** The same for a line given as its frame, the [$] and the rest. *)
Lemma parseHandler_frame_rest defs c ch body rest :
  _loggedin c = true -> is_sentinel ch = true ->
  no_linebreak (String ch body) = true -> no_linebreak rest = true ->
  find "$" (String ch body) = None ->
  let P := String ch body in
  let cd := match find "," P with
            | None => (P, "")
            | Some i => (str_take i P, str_drop (i + 1) P)
            end in
  parseHandler defs (P +:+ String "$" rest) c
  = PTuple (PDict (add_dispatch defs cd.1
                     (<["data" := cd.2]> (<["code" := cd.1]> ∅))))
           (PStr rest).
Proof.
  intros Hl Hs HP Hr Hf. cbv zeta.
  pose proof (find_app_at "$" (String ch body) rest Hf) as Hat.
  assert (Hlb : no_linebreak (String ch body +:+ String "$" rest) = true).
  { unfold no_linebreak in *. rewrite str_forall_app, HP.
    cbn [str_forall andb]. exact Hr. }
  rewrite str_app_cons in Hat, Hlb |- *.
  rewrite (parseHandler_framed defs c ch _ _ Hl Hs Hlb Hat). cbv zeta.
  rewrite <- (str_app_cons ch body (String "$" rest)).
  rewrite str_take_app.
  replace (String.length (String ch body) + 1)%nat
    with (String.length (String ch body +:+ "$"))
    by (rewrite str_length_app; reflexivity).
  replace (String ch body +:+ String "$" rest)
    with ((String ch body +:+ "$") +:+ rest) by (rewrite str_app_assoc; reflexivity).
  rewrite str_drop_app. reflexivity.
Qed.

Lemma frame_message defs c ch code data rest :
  _loggedin c = true -> is_sentinel ch = true ->
  no_linebreak code = true -> no_linebreak data = true ->
  no_linebreak rest = true ->
  find "$" code = None -> find "," code = None -> find "$" data = None ->
  let r := parseHandler defs (String ch code +:+ "," +:+ data +:+ "$" +:+ rest) c in
  message_of r = Some (String ch code, data)
  /\ exists cmd, r = PTuple (PDict cmd) (PStr rest).
Proof.
  intros Hl Hs Hc Hd Hr Hc1 Hc2 Hd1.
  destruct (sentinel_plain ch Hs) as (Hs1 & Hs2 & Hs3).
  assert (Hshape : String ch code +:+ "," +:+ data +:+ "$" +:+ rest
                   = String ch (code +:+ String "," data) +:+ String "$" rest).
  { rewrite <- str_app_cons, str_app_assoc. reflexivity. }
  assert (Hf : find "$" (String ch (code +:+ String "," data)) = None).
  { rewrite <- str_app_cons.
    rewrite find_app_none by (simpl; rewrite Hs1, Hc1; reflexivity).
    simpl. rewrite Hd1. reflexivity. }
  assert (Hlb : no_linebreak (String ch (code +:+ String "," data)) = true).
  { rewrite <- str_app_cons. unfold no_linebreak in *. rewrite str_forall_app.
    simpl. rewrite Hs3, Hc, Hd. reflexivity. }
  cbv zeta. rewrite Hshape.
  rewrite (parseHandler_frame_rest defs c ch _ rest Hl Hs Hlb Hr Hf). cbv zeta.
  rewrite <- str_app_cons.
  rewrite (find_app_at "," (String ch code) data)
    by (simpl; rewrite Hs2, Hc2; reflexivity).
  cbn [fst snd]. rewrite str_take_app.
  replace (String.length (String ch code) + 1)%nat
    with (String.length (String ch code +:+ ",")) by (rewrite str_length_app; reflexivity).
  replace (String ch code +:+ String "," data)
    with ((String ch code +:+ ",") +:+ data) by (rewrite str_app_assoc; reflexivity).
  rewrite str_drop_app. split; [apply message_of_cmd|eauto].
Qed.

(** X1. After the login, a line made of a sentinel, a code, a comma, a
    payload and [$], followed by any text, is read as the message (sentinel
    and code, payload), and the text after the [$] is handed back
    untouched.  The code holds no comma, neither code nor payload holds a
    [$], and there is no line break. *)
Theorem parseHandler_reads_first_frame defs c ch code data rest :
  _loggedin c = true -> is_sentinel ch = true ->
  no_linebreak code = true -> no_linebreak data = true ->
  no_linebreak rest = true ->
  find "$" code = None -> find "," code = None -> find "$" data = None ->
  let r := parseHandler defs (String ch code +:+ "," +:+ data +:+ "$" +:+ rest) c in
  message_of r = Some (String ch code, data)
  /\ exists cmd, r = PTuple (PDict cmd) (PStr rest).
Proof. exact (frame_message defs c ch code data rest). Qed.

Lemma parseHandler_reads_first_frame_witness :
  let r := parseHandler sample_defs "%00,01,1C08$%02,01$" sample_client in
  message_of r = Some ("%00", "01,1C08")
  /\ exists cmd, r = PTuple (PDict cmd) (PStr "%02,01$").
Proof.
  apply (parseHandler_reads_first_frame sample_defs sample_client "%" "00"
           "01,1C08" "%02,01$"); reflexivity.
Defined.




Lemma find_app_none_inv c a b :
  find c (a +:+ b) = None -> find c a = None /\ find c b = None.
Proof.
  rewrite !find_none_forall, str_forall_app. intros H.
  apply andb_true_iff in H. exact H.
Qed.

Lemma message_iff defs c line :
  is_Some (message_of (parseHandler defs line c))
  <-> (if _loggedin c
       then let f := str_filter (fun ch => negb (is_linebreak ch)) line in
            starts_with_sentinel f && contains "$" f = true
       else starts_banner line = true).
Proof.
  destruct (_loggedin c) eqn:Hl.
  - rewrite parseHandler_linebreaks by exact Hl. cbv zeta.
    pose proof (str_filter_forall (fun ch => negb (is_linebreak ch)) line) as Hlb.
    destruct (str_filter _ line) as [|ch body] eqn:Hf.
    + unfold parseHandler. rewrite Hl. simpl. split; [intros [x Hx]; discriminate|discriminate].
    + cbn [starts_with_sentinel]. destruct (is_sentinel ch) eqn:Hs.
      * unfold contains. destruct (find "$" (String ch body)) as [n|] eqn:Hfd.
        -- rewrite (parseHandler_framed defs c ch body n Hl Hs Hlb Hfd). cbv zeta.
           rewrite message_of_cmd. split; eauto.
        -- unfold parseHandler. rewrite Hl. cbn [negb].
           rewrite (str_filter_id _ _ Hlb). cbn [str_empty String.eqb].
           rewrite Hs. cbn [negb Nat.eqb]. rewrite Hfd. simpl.
           split; [intros [x Hx]; discriminate|discriminate].
      * unfold parseHandler. rewrite Hl. cbn [negb].
        rewrite (str_filter_id _ _ Hlb). cbn [str_empty String.eqb].
        rewrite Hs. simpl. split; [intros [x Hx]; discriminate|discriminate].
  - unfold parseHandler. rewrite Hl. cbn [negb].
    destruct line as [|ch body]; [simpl; split; [intros [x Hx]; discriminate|discriminate]|].
    cbn [span starts_banner].
    destruct (negb (is_linebreak ch || is_sentinel ch)).
    + destruct (span _ body) as [a b]. cbn [str_empty String.eqb].
      rewrite message_of_cmd. split; eauto.
    + simpl. split; [intros [x Hx]; discriminate|discriminate].
Qed.

(** X3. [parseHandler] gives a message exactly in these cases: before the
    login, when the line starts with a character other than CR, LF, [%] and
    [^]; after the login, when the line, its line breaks taken out, starts
    with a sentinel and holds a [$].  So after the login a line with
    anything before its sentinel gives no message, whatever follows. *)
Theorem parseHandler_message_iff defs c line :
  is_Some (message_of (parseHandler defs line c))
  <-> (if _loggedin c
       then let f := str_filter (fun ch => negb (is_linebreak ch)) line in
            starts_with_sentinel f && contains "$" f = true
       else starts_banner line = true).
Proof. exact (message_iff defs c line). Qed.

(** X4. After the login, a message that [parseHandler] gives and the rest
    it hands back make up the line again, its line breaks taken out: the
    code, then a comma and the payload if the payload is not empty, the
    [$], the rest.  The code starts with the sentinel and holds no comma,
    and neither code nor payload holds a [$]. *)
Theorem parseHandler_message_splits_line defs c line code data :
  _loggedin c = true ->
  message_of (parseHandler defs line c) = Some (code, data) ->
  exists cmd rest,
    parseHandler defs line c = PTuple (PDict cmd) (PStr rest)
    /\ (str_filter (fun ch => negb (is_linebreak ch)) line
        = code +:+ "," +:+ data +:+ "$" +:+ rest
        \/ (data = ""
            /\ str_filter (fun ch => negb (is_linebreak ch)) line
               = code +:+ "$" +:+ rest))
    /\ starts_with_sentinel code = true
    /\ find "," code = None /\ find "$" code = None /\ find "$" data = None.
Proof.
  intros Hl Hm.
  pose proof (proj1 (message_iff defs c line) (mk_is_Some _ _ Hm)) as Hc.
  rewrite Hl in Hc. cbv zeta in Hc. apply andb_true_iff in Hc as [Hs Hd].
  rewrite parseHandler_linebreaks in Hm |- * by exact Hl.
  pose proof (str_filter_forall (fun ch => negb (is_linebreak ch)) line) as Hlb.
  destruct (str_filter _ line) as [|ch body]; [discriminate Hs|].
  cbn [starts_with_sentinel] in Hs.
  unfold contains in Hd. destruct (find "$" (String ch body)) as [n|] eqn:Hfd; [|discriminate].
  rewrite (parseHandler_framed defs c ch body n Hl Hs Hlb Hfd) in Hm |- *. cbv zeta in Hm |- *.
  rewrite message_of_cmd in Hm.
  destruct (find_some_split "$" _ n Hfd) as [Hsplit HP].
  set (P := str_take n (String ch body)) in *.
  set (rest := str_drop (n + 1) (String ch body)) in *.
  assert (HPs : starts_with_sentinel P = true).
  { destruct n; [|exact Hs]. simpl in Hfd.
    destruct (sentinel_plain ch Hs) as (E & _). rewrite E in Hfd.
    destruct (find "$" body); discriminate. }
  eexists _, rest. split; [reflexivity|].
  destruct (find "," P) as [i|] eqn:Hcomma.
  - cbn [fst snd] in Hm. injection Hm as <- <-.
    destruct (find_some_split "," P i Hcomma) as [HPsplit Hcode].
    rewrite HPsplit in HP. apply find_app_none_inv in HP as [HP1 HP2].
    simpl in HP2. destruct (find "$" (str_drop (i + 1) P)) eqn:E; [discriminate|].
    split; [left|].
    + rewrite Hsplit at 1. rewrite HPsplit at 1. rewrite str_app_assoc. reflexivity.
    + split; [|auto]. destruct i; [|destruct P; [discriminate|exact HPs]].
      destruct P as [|x P']; [discriminate|]. simpl in Hcomma.
      cbn [starts_with_sentinel] in HPs.
      destruct (sentinel_plain x HPs) as (_ & E2 & _). rewrite E2 in Hcomma.
      destruct (find "," P'); discriminate.
  - cbn [fst snd] in Hm. injection Hm as <- <-.
    split; [right; split; [reflexivity|exact Hsplit]|]. auto.
Qed.

Lemma parseHandler_message_splits_line_witness :
  exists cmd rest,
    parseHandler sample_defs ("%00,01,1C08$%02,01$" +:+ CRLF) sample_client
    = PTuple (PDict cmd) (PStr rest)
    /\ rest = "%02,01$".
Proof.
  destruct (parseHandler_message_splits_line sample_defs sample_client
              ("%00,01,1C08$%02,01$" +:+ CRLF) "%00" "01,1C08")
    as (cmd & rest & Hp & Hline & _).
  - reflexivity.
  - vm_compute. reflexivity.
  - exists cmd, rest. split; [exact Hp|].
    vm_compute in Hp. injection Hp as _ Hr. symmetry. exact Hr.
Defined.

(** X5. Before the login, the message [parseHandler] gives has an empty
    payload, and its code and the rest handed back make up the line: the
    code is the longest start of the line free of CR, LF, [%] and [^]. *)
Theorem parseHandler_banner_splits_line defs c line code data :
  _loggedin c = false ->
  message_of (parseHandler defs line c) = Some (code, data) ->
  data = ""
  /\ exists cmd rest,
       parseHandler defs line c = PTuple (PDict cmd) (PStr rest)
       /\ code +:+ rest = line
       /\ str_forall (fun ch => negb (is_linebreak ch || is_sentinel ch)) code = true
       /\ starts_banner rest = false.
Proof.
  intros Hl. unfold parseHandler. rewrite Hl. cbn [negb].
  pose proof (span_spec (fun ch => negb (is_linebreak ch || is_sentinel ch)) line) as Hsp.
  destruct (span _ line) as [a b]. destruct Hsp as (Hab & Ha & Hb).
  destruct (str_empty a) eqn:Ea; [discriminate|].
  rewrite message_of_cmd, dead_rest_test. intros [= <- <-].
  split; [reflexivity|]. eexists _, b. split; [reflexivity|].
  split; [exact Hab|]. split; [exact Ha|].
  destruct b as [|x b']; [reflexivity|]. simpl. exact Hb.
Qed.

Lemma parseHandler_banner_splits_line_witness :
  exists cmd rest,
    parseHandler sample_defs "Login:%00" (EnvisalinkClient_init sample_panel)
    = PTuple (PDict cmd) (PStr rest)
    /\ "Login:" +:+ rest = "Login:%00".
Proof.
  destruct (parseHandler_banner_splits_line sample_defs
              (EnvisalinkClient_init sample_panel) "Login:%00" "Login:" "")
    as (_ & cmd & rest & Hp & Hline & _).
  - reflexivity.
  - vm_compute. reflexivity.
  - exists cmd, rest. split; [exact Hp|exact Hline].
Defined.

(** ** The command queue, further *)

Lemma scan_head_idents now op rest c c' flow :
  _commandQueue c = op :: rest ->
  scan_head now op rest c = (c', flow) ->
  exists popped,
    (popped ++ (op_ident <$> _commandQueue c') = op_ident <$> (op :: rest))%list.
Proof.
  intros Hq. unfold scan_head.
  destruct (state op); try destruct (Qle_bool _ _); intros [= <- <-]; simpl;
    rewrite ?Hq; first [ by exists [] | by exists [op_ident op] ].
Qed.

Lemma scan_queue_idents turns : forall now last c last' c',
  scan_queue turns now last c = Some (last', c') ->
  exists popped,
    (popped ++ (op_ident <$> _commandQueue c') = op_ident <$> _commandQueue c)%list.
Proof.
  induction turns as [|turns IH]; intros now last c last' c'; simpl; [discriminate|].
  destruct (_commandQueue c) as [|op rest] eqn:Hq.
  - intros [= <- <-]. exists []. rewrite Hq. reflexivity.
  - destruct (scan_head now op rest c) as [c1 flow] eqn:Hs.
    destruct (scan_head_idents _ _ _ _ _ _ Hq Hs) as [p1 H1].
    destruct flow.
    + intros H. destruct (IH _ _ _ _ _ H) as [p2 H2].
      exists (p1 ++ p2)%list. rewrite <- H1, <- H2, app_assoc. reflexivity.
    + intros [= <- <-]. exists p1. exact H1.
Qed.

Lemma do_call_idents k c c' :
  do_call k c = Some c' ->
  exists popped,
    (popped ++ (op_ident <$> _commandQueue c')
     = (op_ident <$> _commandQueue c) ++ queued_commands [k])%list.
Proof.
  destruct k as [cmd data code now|cmd|retry now|now]; cbn [do_call queued_commands].
  - intros [= <-]. exists []. simpl. rewrite fmap_app. reflexivity.
  - intros [= <-]. exists []. rewrite app_nil_r. cbn [app].
    unfold command_succeeded. rewrite with_event_queue.
    destruct (_commandQueue c) as [|op rest] eqn:E; [rewrite E; reflexivity|].
    destruct (truthy cmd && _); [rewrite E|]; reflexivity.
  - intros [= <-]. exists []. rewrite app_nil_r. cbn [app].
    unfold command_failed. rewrite with_event_queue.
    destruct (_commandQueue c) as [|op rest] eqn:E; [rewrite E; reflexivity|].
    destruct (negb (bool_decide _)); [rewrite E; reflexivity|].
    destruct (negb retry); [reflexivity|].
    destruct (Qle_bool _ _); reflexivity.
  - unfold process_command_queue.
    destruct (scan_queue _ now None c) as [[last c1]|] eqn:Hs; [|discriminate].
    cbn [fmap option_fmap option_map snd]. intros [= <-].
    rewrite app_nil_r, with_event_queue.
    eapply scan_queue_idents; eauto.
Qed.

Lemma queued_commands_cons k calls :
  queued_commands (k :: calls) = (queued_commands [k] ++ queued_commands calls)%list.
Proof. destruct k; reflexivity. Qed.

Lemma run_idents calls : forall c c',
  run calls c = Some c' ->
  exists popped,
    (popped ++ (op_ident <$> _commandQueue c')
     = (op_ident <$> _commandQueue c) ++ queued_commands calls)%list.
Proof.
  induction calls as [|k calls IH]; intros c c'; cbn [run].
  - intros [= <-]. exists []. cbn [queued_commands]. rewrite app_nil_r. reflexivity.
  - destruct (do_call k c) as [c1|] eqn:Hk; [|discriminate].
    cbn [mbind option_bind]. intros H.
    destruct (do_call_idents k c c1 Hk) as [p1 H1].
    destruct (IH c1 c' H) as [p2 H2].
    exists (p1 ++ p2)%list.
    rewrite (queued_commands_cons k calls), (app_assoc (op_ident <$> _commandQueue c)).
    rewrite <- H1, <- !app_assoc, H2. reflexivity.
Qed.

(** What a pass leaves of the queue: the leading finished operations are
    gone, the first other one is the head, with its identity, delay and
    expiry time, and those behind it are untouched. *)
Lemma scan_queue_drops turns : forall now last c last' c',
  scan_queue turns now last c = Some (last', c') ->
  match drop_finished (_commandQueue c) with
  | [] => _commandQueue c' = []
  | op :: rest =>
      exists op', _commandQueue c' = op' :: rest
        /\ op_ident op' = op_ident op
        /\ retryDelay op' = retryDelay op /\ expiryTime op' = expiryTime op
  end.
Proof.
  induction turns as [|turns IH]; intros now last c last' c'; simpl; [discriminate|].
  destruct (_commandQueue c) as [|op rest] eqn:Hq.
  - intros [= <- <-]. exact Hq.
  - cbn [drop_finished]. unfold finished, scan_head. destruct (state op) eqn:Hs.
    + intros H. specialize (IH _ _ _ _ _ H).
      cbn [_commandQueue with_cachedCode with_queue drop_finished] in IH.
      unfold finished in IH. cbn [state set_state] in IH. exact IH.
    + destruct (Qle_bool (expiryTime op) now); intros [= <- <-].
      * eexists. split; [reflexivity|]. repeat split.
      * exists op. rewrite Hq. repeat split.
    + intros H. exact (IH _ _ _ _ _ H).
    + destruct (Qle_bool (expiryTime op) now).
      * intros H. specialize (IH _ _ _ _ _ H).
        cbn [_commandQueue with_queue drop_finished] in IH.
        unfold finished in IH. cbn [state set_state] in IH. exact IH.
      * intros [= <- <-]. exists op. rewrite Hq. repeat split.
    + intros H. exact (IH _ _ _ _ _ H).
Qed.

(** X6. The command queue is first in, first out.  [queue_command] puts
    the new command, QUEUED, behind all others; [command_succeeded] and
    [command_failed] neither add, remove nor reorder commands; a pass of
    the processor removes exactly the leading operations that are SUCCEEDED
    or FAILED when it starts, and keeps the others in order, the first of
    them as the head with its command, data, code, delay and expiry time.
    So after any calls and passes on a fresh client the queue holds the
    queued commands less the first few. *)
Theorem queue_is_fifo :
  (forall cmd data code now c,
      exists op,
        _commandQueue (queue_command cmd data code now c) = (_commandQueue c ++ [op])%list
        /\ op_ident op = (cmd, data, code) /\ state op = QUEUED)
  /\ (forall ack c,
        op_ident <$> _commandQueue (command_succeeded ack c)
        = op_ident <$> _commandQueue c)
  /\ (forall retry now c,
        op_ident <$> _commandQueue (command_failed retry now c)
        = op_ident <$> _commandQueue c)
  /\ (forall now c timeout c',
        process_command_queue now c = Some (timeout, c') ->
        match drop_finished (_commandQueue c) with
        | [] => _commandQueue c' = []
        | op :: rest =>
            exists op', _commandQueue c' = op' :: rest
              /\ op_ident op' = op_ident op
              /\ retryDelay op' = retryDelay op /\ expiryTime op' = expiryTime op
        end)
  /\ (forall panel calls c,
        run calls (EnvisalinkClient_init panel) = Some c ->
        exists popped,
          (popped ++ (op_ident <$> _commandQueue c) = queued_commands calls)%list).
Proof.
  split; [|split; [|split; [|split]]].
  - intros cmd data code now c. eexists. split; [reflexivity|]. split; reflexivity.
  - intros ack c. unfold command_succeeded. rewrite with_event_queue.
    destruct (_commandQueue c) as [|op rest] eqn:E; [rewrite E; reflexivity|].
    destruct (truthy ack && _); [rewrite E|]; reflexivity.
  - intros retry now c. unfold command_failed. rewrite with_event_queue.
    destruct (_commandQueue c) as [|op rest] eqn:E; [rewrite E; reflexivity|].
    destruct (negb (bool_decide _)); [rewrite E; reflexivity|].
    destruct (negb retry); [reflexivity|].
    destruct (Qle_bool _ _); reflexivity.
  - intros now c timeout c'. unfold process_command_queue.
    destruct (scan_queue _ now None c) as [[last c1]|] eqn:Hs; [|discriminate].
    intros [= _ <-]. rewrite with_event_queue.
    exact (scan_queue_drops _ _ _ _ _ _ Hs).
  - intros panel calls c H. exact (run_idents calls _ _ H).
Qed.

Lemma queue_is_fifo_witness :
  (exists popped,
      (popped ++ (op_ident <$> _commandQueue fifo_client)
       = [("A", "1", None); ("B", "2", None)])%list)
  /\ (exists timeout c',
        process_command_queue 1%Q finished_ahead = Some (timeout, c')
        /\ op_ident <$> _commandQueue c' = [("B", "2", None)]).
Proof.
  split.
  - apply (proj2 (proj2 (proj2 (proj2 queue_is_fifo))) sample_panel fifo_calls fifo_client).
    vm_compute. reflexivity.
  - destruct (process_command_queue 1%Q finished_ahead) as [[timeout c']|] eqn:E;
      [|vm_compute in E; discriminate E].
    exists timeout, c'. split; [reflexivity|].
    pose proof (proj1 (proj2 (proj2 (proj2 queue_is_fifo))) 1%Q finished_ahead
                  timeout c' E) as H.
    cbn in H. destruct H as (op' & -> & Hi & _). cbn [fmap list_fmap]. rewrite Hi.
    reflexivity.
Defined.

Lemma scan_queue_head turns : forall now last c last' c',
  scan_queue turns now last c = Some (last', c') ->
  match _commandQueue c' with
  | [] => _commandQueue c = [] -> last' = last
  | op :: _ =>
      exists l, last' = Some l /\ expiryTime l = expiryTime op
        /\ ((state op = SENT \/ state op = RETRY) /\ Qle_bool (expiryTime op) now = false
            \/ state op = FAILED /\ Qle_bool (expiryTime op) now = true)
  end.
Proof.
  induction turns as [|turns IH]; intros now last c last' c'; simpl; [discriminate|].
  destruct (_commandQueue c) as [|op rest] eqn:Hq.
  - intros [= <- <-]. rewrite Hq. reflexivity.
  - unfold scan_head. destruct (state op) eqn:Hs.
    + intros H. specialize (IH _ _ _ _ _ H).
      destruct (_commandQueue c'); [discriminate|exact IH].
    + destruct (Qle_bool (expiryTime op) now) eqn:E; intros [= <- <-]; simpl; rewrite ?Hq;
        exists op; rewrite ?Hs; auto 6.
    + intros H. specialize (IH _ _ _ _ _ H).
      destruct (_commandQueue c'); [discriminate|exact IH].
    + destruct (Qle_bool (expiryTime op) now) eqn:E.
      * intros H. specialize (IH _ _ _ _ _ H).
        destruct (_commandQueue c'); [discriminate|exact IH].
      * intros [= <- <-]. rewrite Hq. exists op. rewrite Hs. auto 6.
    + intros H. specialize (IH _ _ _ _ _ H).
      destruct (_commandQueue c'); [discriminate|exact IH].
Qed.

Lemma Qle_bool_false a b : Qle_bool a b = false <-> (b < a)%Q.
Proof.
  split.
  - intros H. apply Qnot_le_lt. intros Hle. apply Qle_bool_iff in Hle. congruence.
  - intros H. destruct (Qle_bool a b) eqn:E; [|reflexivity].
    apply Qle_bool_iff in E. apply Qlt_not_le in H. contradiction.
Qed.

(** X7. When a pass of the processor ends with a queue that is not empty,
    its head is waiting: SENT or RETRY with its expiry time still ahead, and
    then the processor sleeps for the positive time left; or FAILED because
    its expiry time has come, still at the head, and then the sleep asked
    for is zero or negative.  The head is never left QUEUED or SUCCEEDED.
    A pass on an empty queue sleeps for [command_timeout]. *)
Theorem pass_leaves_head_waiting now c timeout c' :
  process_command_queue now c = Some (timeout, c') ->
  match _commandQueue c' with
  | [] => _commandQueue c = [] -> timeout = command_timeout (_alarmPanel c)
  | op :: _ =>
      timeout = (expiryTime op - now)%Q
      /\ ((state op = SENT \/ state op = RETRY)
          /\ (now < expiryTime op)%Q /\ (0 < timeout)%Q
          \/ state op = FAILED /\ (expiryTime op <= now)%Q /\ (timeout <= 0)%Q)
  end.
Proof.
  unfold process_command_queue.
  destruct (scan_queue _ now None c) as [[last c1]|] eqn:Hs; [|discriminate].
  intros [= <- <-]. rewrite with_event_queue.
  pose proof (scan_queue_head _ _ _ _ _ _ Hs) as H.
  destruct (_commandQueue c1) as [|op q] eqn:Hq.
  - intros Hc. rewrite (H Hc).
    assert (Hsame : c1 = c).
    { unfold scan_turns in Hs. rewrite Hc in Hs. simpl in Hs. rewrite Hc in Hs.
      congruence. }
    rewrite Hsame. reflexivity.
  - destruct H as (l & -> & Hl & Hcase). rewrite Hl. split; [reflexivity|].
    destruct Hcase as [[Hst E]|[Hst E]].
    + left. apply Qle_bool_false in E. split; [exact Hst|]. split; [exact E|lra].
    + right. apply Qle_bool_iff in E. split; [exact Hst|]. split; [exact E|lra].
Qed.

Lemma pass_leaves_head_waiting_witness :
  state <$> _commandQueue timed_out_pass.2 = [FAILED]
  /\ (timed_out_pass.1 <= 0)%Q.
Proof.
  split; [reflexivity|].
  pose proof (pass_leaves_head_waiting 25%Q sent_client timed_out_pass.1
                timed_out_pass.2) as H.
  assert (Hp : process_command_queue 25%Q sent_client
               = Some (timed_out_pass.1, timed_out_pass.2))
    by (vm_compute; reflexivity).
  specialize (H Hp). simpl in H.
  destruct H as [_ [[[H|H] _]|[_ [_ H]]]]; [discriminate H|discriminate H|exact H].
Defined.

(** More turns than needed change nothing. *)
Lemma scan_queue_turns t1 : forall t2 now last c,
  (queue_weight (_commandQueue c) < t1)%nat ->
  (queue_weight (_commandQueue c) < t2)%nat ->
  scan_queue t1 now last c = scan_queue t2 now last c.
Proof.
  induction t1 as [|t1 IH]; intros t2 now last c H1 H2; [lia|].
  destruct t2 as [|t2]; [lia|]. simpl.
  destruct (_commandQueue c) as [|op rest] eqn:Hq; [reflexivity|].
  destruct (scan_head now op rest c) as [c1 [|]] eqn:Hs; [|reflexivity].
  pose proof (scan_head_continue _ _ _ _ _ Hq Hs).
  apply IH; lia.
Qed.

Lemma scan_queue_unfold now last c :
  scan_queue (scan_turns c) now last c
  = match _commandQueue c with
    | [] => Some (last, c)
    | op :: rest =>
        match scan_head now op rest c with
        | (c', Break) => Some (Some op, c')
        | (c', Continue) => scan_queue (scan_turns c') now (Some op) c'
        end
    end.
Proof.
  unfold scan_turns at 1. rewrite Nat.add_1_r. cbn [scan_queue].
  destruct (_commandQueue c) as [|op rest] eqn:Hq; [reflexivity|].
  destruct (scan_head now op rest c) as [c1 [|]] eqn:Hs; [|reflexivity].
  pose proof (scan_head_continue _ _ _ _ _ Hq Hs) as Hw.
  pose proof (queue_weight_bound (op :: rest)) as Hb1.
  pose proof (queue_weight_bound (_commandQueue c1)) as Hb2.
  apply scan_queue_turns; unfold scan_turns; lia.
Qed.

(** X8. A head that is QUEUED or in RETRY when its expiry time has come is
    not given a fresh deadline: the pass marks it SENT, records its code,
    and fails it at once for the timeout, leaving it FAILED at the head.
    The expiry time of a queued command runs from the moment it was queued,
    that of a retry from the failure. *)
Theorem stale_head_fails_at_once now c op rest :
  _commandQueue c = op :: rest ->
  state op = QUEUED \/ state op = RETRY ->
  (expiryTime op <= now)%Q ->
  exists c',
    process_command_queue now c = Some ((expiryTime op - now)%Q, c')
    /\ _commandQueue c' = set_state FAILED op :: rest
    /\ _cachedCode c' = code op
    /\ _transport c' = _transport c.
Proof.
  intros Hq Hs He. apply Qle_bool_iff in He.
  unfold process_command_queue.
  assert (Hq_step : forall last c0,
             _commandQueue c0 = set_state QUEUED op :: rest ->
             scan_queue (scan_turns c0) now last c0
             = Some (Some (set_state SENT (set_state QUEUED op)),
                     with_queue (set_state FAILED op :: rest)
                       (with_cachedCode (code op) c0))).
  { intros last c0 H0. rewrite scan_queue_unfold, H0. cbn [scan_head state set_state].
    rewrite scan_queue_unfold. cbn [_commandQueue with_cachedCode with_queue].
    cbn [scan_head state set_state expiryTime]. rewrite He. reflexivity. }
  destruct Hs as [Hs|Hs].
  - assert (Hop : set_state QUEUED op = op) by (destruct op; simpl in Hs; subst; reflexivity).
    rewrite <- Hop in Hq at 1. rewrite (Hq_step None c Hq).
    eexists. split; [reflexivity|]. repeat split.
  - rewrite scan_queue_unfold, Hq. unfold scan_head at 1. rewrite Hs, He.
    rewrite (Hq_step (Some op) (with_queue (set_state QUEUED op :: rest) c) eq_refl).
    eexists. split; [reflexivity|]. repeat split.
Qed.

Lemma stale_head_fails_at_once_witness :
  exists c',
    process_command_queue 30%Q (queue_command "A" "1" None 0%Q sample_client)
    = Some ((20 - 30)%Q, c')
    /\ state <$> _commandQueue c' = [FAILED].
Proof.
  destruct (stale_head_fails_at_once 30%Q (queue_command "A" "1" None 0%Q sample_client)
              (set_expiryTime (0 + 20)%Q (Operation.__init__ "A" "1" None)) [])
    as (c' & Hp & Hq & _).
  - reflexivity.
  - left. reflexivity.
  - vm_compute. discriminate.
  - exists c'. split; [exact Hp|]. rewrite Hq. reflexivity.
Defined.

Lemma command_succeeded_head ack c op rest :
  _commandQueue c = op :: rest ->
  unspecified ack \/ ack = Some (cmd op) ->
  command_succeeded ack c
  = with_event true (with_queue (set_state SUCCEEDED op :: rest) c).
Proof.
  intros Hq H. unfold command_succeeded. rewrite Hq. destruct H as [H | ->].
  - rewrite (truthy_unspecified ack H). reflexivity.
  - rewrite bool_decide_eq_true_2 by reflexivity. rewrite andb_false_r. reflexivity.
Qed.

Lemma scan_head_event e now op rest c :
  scan_head now op rest (with_event e c)
  = (with_event e (scan_head now op rest c).1, (scan_head now op rest c).2).
Proof.
  unfold scan_head. destruct (state op); try destruct (Qle_bool _ _); reflexivity.
Qed.

Lemma scan_queue_event e turns : forall now last c,
  scan_queue turns now last (with_event e c)
  = (fun r => (r.1, with_event e r.2)) <$> scan_queue turns now last c.
Proof.
  induction turns as [|turns IH]; intros now last c; [reflexivity|].
  cbn [scan_queue]. rewrite with_event_queue.
  destruct (_commandQueue c) as [|op rest]; [reflexivity|].
  rewrite scan_head_event.
  destruct (scan_head now op rest c) as [c1 [|]]; cbn [fst snd]; [apply IH|reflexivity].
Qed.

(** A pass drops a head that is SUCCEEDED or FAILED and goes on with the
    rest of the queue. *)
Lemma pass_drops_finished_head now c op rest :
  _commandQueue c = op :: rest ->
  state op = SUCCEEDED \/ state op = FAILED ->
  scan_queue (scan_turns c) now None c
  = scan_queue (scan_turns (with_queue rest c)) now (Some op) (with_queue rest c).
Proof.
  intros Hq Hs. rewrite scan_queue_unfold, Hq. unfold scan_head.
  destruct Hs as [-> | ->]; reflexivity.
Qed.

(** X9. A command that is queued, met by a pass of the processor and then
    acknowledged, by its own name or by none, is gone after the next pass,
    whenever the passes take place: the queue of a fresh client is empty
    again and the code of the command is the one recorded last. *)
Theorem acknowledged_command_leaves_queue panel cmd data code ack t0 t1 t2 :
  unspecified ack \/ ack = Some cmd ->
  exists c,
    run [call_queue_command cmd data code t0; call_processor_pass t1;
         call_command_succeeded ack; call_processor_pass t2]
        (EnvisalinkClient_init panel) = Some c
    /\ _commandQueue c = [] /\ _cachedCode c = code.
Proof.
  intros Hack. cbn [run do_call mbind option_bind].
  set (c1 := queue_command cmd data code t0 (EnvisalinkClient_init panel)).
  set (op := set_expiryTime (t0 + command_timeout panel)%Q (Operation.__init__ cmd data code)).
  assert (Hpass1 : exists timeout c2 s,
             process_command_queue t1 c1 = Some (timeout, c2)
             /\ _commandQueue c2 = [set_state s op] /\ _cachedCode c2 = code).
  { unfold process_command_queue.
    rewrite scan_queue_unfold. cbn [c1 queue_command _commandQueue with_event with_queue
      EnvisalinkClient_init app scan_head Operation.__init__ set_expiryTime state].
    rewrite scan_queue_unfold. cbn [_commandQueue with_cachedCode with_queue
      scan_head set_state state expiryTime].
    destruct (Qle_bool _ t1); eexists _, _, _; (split; [reflexivity|]); split; reflexivity. }
  destruct Hpass1 as (timeout & c2 & s & -> & Hq2 & Hc2).
  cbn [fmap option_fmap option_map snd mbind option_bind].
  rewrite (command_succeeded_head ack c2 (set_state s op) [] Hq2 Hack).
  unfold process_command_queue.
  rewrite scan_queue_unfold. cbn [_commandQueue with_event with_queue scan_head
    set_state state].
  rewrite scan_queue_unfold. cbn [_commandQueue with_event with_queue].
  cbn [fmap option_fmap option_map snd mbind option_bind].
  eexists. split; [reflexivity|]. split; [reflexivity|exact Hc2].
Qed.

Lemma acknowledged_command_leaves_queue_witness :
  exists c,
    run [call_queue_command "A" "1" (Some "1234") 0%Q; call_processor_pass 1%Q;
         call_command_succeeded (Some "A"); call_processor_pass 2%Q]
        (EnvisalinkClient_init sample_panel) = Some c
    /\ _commandQueue c = [] /\ _cachedCode c = Some "1234".
Proof.
  apply (acknowledged_command_leaves_queue sample_panel "A" "1" (Some "1234")
           (Some "A") 0%Q 1%Q 2%Q).
  right. reflexivity.
Defined.

Lemma scan_queue_last turns now l1 l2 c :
  snd <$> scan_queue turns now l1 c = snd <$> scan_queue turns now l2 c.
Proof.
  destruct turns as [|turns]; [reflexivity|]. cbn [scan_queue].
  destruct (_commandQueue c) as [|op rest]; [reflexivity|].
  destruct (scan_head now op rest c) as [c1 [|]]; reflexivity.
Qed.

(** X10. [command_succeeded] does not look at the state of the head: an
    acknowledgement that names the head's command, or none, finishes the
    head even when it was never sent, and the next pass of the processor
    goes on from the rest of the queue as if that command had not been
    there. *)
Theorem acknowledgement_drops_head_unsent now ack c op rest :
  _commandQueue c = op :: rest ->
  unspecified ack \/ ack = Some (cmd op) ->
  snd <$> process_command_queue now (command_succeeded ack c)
  = snd <$> process_command_queue now (with_queue rest c).
Proof.
  intros Hq Hack. rewrite (command_succeeded_head ack c op rest Hq Hack).
  unfold process_command_queue.
  change (scan_turns (with_event true (with_queue (set_state SUCCEEDED op :: rest) c)))
    with (scan_turns (with_queue (set_state SUCCEEDED op :: rest) c)).
  rewrite scan_queue_event.
  rewrite (pass_drops_finished_head now
             (with_queue (set_state SUCCEEDED op :: rest) c)
             (set_state SUCCEEDED op) rest eq_refl) by (left; reflexivity).
  change (with_queue rest (with_queue (set_state SUCCEEDED op :: rest) c))
    with (with_queue rest c).
  pose proof (scan_queue_last (scan_turns (with_queue rest c)) now
                (Some (set_state SUCCEEDED op)) None (with_queue rest c)) as H.
  destruct (scan_queue _ now (Some (set_state SUCCEEDED op)) (with_queue rest c))
    as [[l1 c1]|];
    destruct (scan_queue _ now None (with_queue rest c)) as [[l2 c2]|];
    try discriminate H; [|reflexivity].
  injection H as ->. reflexivity.
Qed.

Lemma acknowledgement_drops_head_unsent_witness :
  snd <$> process_command_queue 1%Q
            (command_succeeded None (queue_command "A" "1" None 0%Q sample_client))
  = snd <$> process_command_queue 1%Q sample_client.
Proof.
  apply (acknowledgement_drops_head_unsent 1%Q None
           (queue_command "A" "1" None 0%Q sample_client)
           (set_expiryTime (0 + 20)%Q (Operation.__init__ "A" "1" None)) []).
  - reflexivity.
  - left. left. reflexivity.
Defined.

(** ** The acknowledgement handler, further *)

(** X11. A ['00'] acknowledgement whose code is one character followed by
    the command of the head finishes the head: its state becomes SUCCEEDED,
    its other fields and the operations behind it stay, and nothing is
    raised.  The first character of the code is not compared; and when the
    code is that one character alone, the head is finished whatever its
    command. *)
Theorem positive_acknowledgement_finishes_head defs ch now c op rest info :
  evl_TPI_Response_Codes defs !! "00" = Some info ->
  _commandQueue c = op :: rest ->
  (exists c' op',
      handle_command_response defs (String ch (cmd op)) "00" now c = (Ok PNone, c')
      /\ _commandQueue c' = op' :: rest
      /\ op' = set_state SUCCEEDED op
      /\ state op' = SUCCEEDED /\ op_ident op' = op_ident op
      /\ retryDelay op' = retryDelay op /\ expiryTime op' = expiryTime op)
  /\ (exists c' op',
        handle_command_response defs (String ch "") "00" now c = (Ok PNone, c')
        /\ _commandQueue c' = op' :: rest
        /\ state op' = SUCCEEDED /\ op_ident op' = op_ident op).
Proof.
  intros Hi Hq. unfold handle_command_response. rewrite Hi. cbn [String.eqb Ascii.eqb].
  cbn [str_drop]. split.
  - rewrite (command_succeeded_head _ c op rest Hq) by (right; reflexivity).
    eexists _, _. split; [reflexivity|]. split; [reflexivity|]. repeat split.
  - rewrite (command_succeeded_head _ c op rest Hq) by (left; right; reflexivity).
    eexists _, _. split; [reflexivity|]. split; [reflexivity|]. repeat split.
Qed.

Lemma positive_acknowledgement_finishes_head_witness :
  exists c',
    handle_command_response sample_defs "^A" "00" 1%Q sent_client = (Ok PNone, c')
    /\ state <$> _commandQueue c' = [SUCCEEDED].
Proof.
  destruct (positive_acknowledgement_finishes_head sample_defs "^" 1%Q sent_client
              sent_op [] (mkResponseInfo false "Command Accepted"))
    as [(c' & op' & Hr & Hq & _ & Hs & _) _].
  - vm_compute. reflexivity.
  - reflexivity.
  - exists c'. split; [exact Hr|]. rewrite Hq. cbn [fmap list_fmap]. rewrite Hs.
    reflexivity.
Defined.

(** X12. A response code that the table does not have never raises and is
    taken for a failure without retry: a head in flight becomes FAILED,
    with its command, delay and expiry time as they were and the operations
    behind it untouched; a head in any other state, like an empty queue, is
    left alone. *)
Theorem unknown_acknowledgement_fails_head defs code data now c :
  evl_TPI_Response_Codes defs !! data = None ->
  exists c',
    handle_command_response defs code data now c = (Ok PNone, c')
    /\ (forall op rest,
          _commandQueue c = op :: rest -> state op = SENT ->
          exists op', _commandQueue c' = op' :: rest
            /\ state op' = FAILED /\ op_ident op' = op_ident op
            /\ retryDelay op' = retryDelay op /\ expiryTime op' = expiryTime op)
    /\ ((forall op, head (_commandQueue c) = Some op -> state op <> SENT) ->
        _commandQueue c' = _commandQueue c).
Proof.
  intros Hi. unfold handle_command_response. rewrite Hi.
  eexists. split; [reflexivity|]. split.
  - intros op rest Hq Hs.
    destruct (command_failed_in_flight c op rest false now Hq Hs)
      as (op' & Hq' & Hc & Hd & Hk & Hf & _).
    destruct (Hf eq_refl) as (Hst & Hdel & Hexp).
    exists op'. split; [exact Hq'|]. split; [exact Hst|].
    split; [unfold op_ident; rewrite Hc, Hd, Hk; reflexivity|]. split; assumption.
  - intros H. apply command_failed_not_sent. exact H.
Qed.

Lemma unknown_acknowledgement_fails_head_witness :
  exists c',
    handle_command_response sample_defs "^A" "77" 1%Q sent_client = (Ok PNone, c')
    /\ state <$> _commandQueue c' = [FAILED].
Proof.
  destruct (unknown_acknowledgement_fails_head sample_defs "^A" "77" 1%Q sent_client)
    as (c' & Hr & Hsent & _).
  - vm_compute. reflexivity.
  - exists c'. split; [exact Hr|].
    destruct (Hsent sent_op [] eq_refl eq_refl) as (op' & Hq & Hs & _).
    rewrite Hq. cbn [fmap list_fmap]. rewrite Hs. reflexivity.
Defined.
